(** * antero: one-hot encoders and SOM topology measures

    A shallow embedding of [antero/categorical.py] and
    [antero/som/measures.py].

    Conventions of the embedding.
    - A Python exception is a value of [exception]; a call that may raise
      returns a [result].  A method that assigns to [self] returns the
      encoder after the assignment.
    - A 1-d array or [pd.Series] is a list in index order.  The base encoder
      reshapes its samples to a column and back, so an n-d input behaves as
      its flattened view; the masked encoders accept 1-d data only.
    - A 2-d integer array is a [matrix]: its rows together with the length of
      the last axis, which numpy knows even when there is no row.  The table
      a masked encoder returns is handed to [inverse] as its [values].
    - A missing entry (NaN, None) of a series or of a float label array is
      [None].
    - Category values are of any type [V] with decidable equality; [np.unique]
      sorts them by a relation [V_le].
    - [umatrix] and [topographic_error] compute on IEEE binary64, embedded
      as Rocq's primitive floats, so that NaN, ties and the rounding of
      every operation are those of numpy.  Where numpy does not fix the order
      of its additions or of equal keys ([np.sum], [np.argsort]) the
      function is a parameter of the embedding.  The dot product inside
      [np.linalg.norm] is added in index order, which is numpy's result
      wherever the partial sums are exact.
    - [np.mean] of integers or booleans is the exact quotient, a rational
      that numpy rounds once to binary64.  [embedding_accuracy] only
      compares p-values with a threshold and counts; it is embedded over
      rationals. *)

From stdpp Require Import base option list strings sorting.
From Stdlib Require Import QArith PrimFloat Uint63.
From Stdlib Require SpecFloat FloatOps FloatAxioms.

Local Open Scope Z_scope.

(** ** Exceptions *)

Inductive exception : Type :=
  | ProgrammingError (msg : string)
  | IndexError
  | ValueError.

Inductive result (A : Type) : Type :=
  | Ok (a : A)
  | Raise (e : exception).
Arguments Ok {A} a.
Arguments Raise {A} e.

Global Instance result_ret : MRet result := λ A a, Ok a.
Global Instance result_bind : MBind result := λ A B f r,
  match r with Ok a => f a | Raise e => Raise e end.

(** [mapM] of stdpp, specialised so that it reduces by [simpl]. *)
Fixpoint traverse {A B} (f : A → result B) (l : list A) : result (list B) :=
  match l with
  | [] => Ok []
  | x :: l' => y ← f x; ys ← traverse f l'; Ok (y :: ys)
  end.

(** ** The numpy and pandas operations the encoders use *)

Module np.

(** A 2-d integer array of shape [(length rows, n_cols)]. *)
Record matrix : Type := Matrix { n_cols : nat; rows : list (list Z) }.

Definition wf_matrix (m : matrix) : Prop :=
  Forall (λ row, length row = n_cols m) (rows m).

(** [a[k]] for one integer [k]: a negative index counts from the end, an
    index outside [-len, len) raises IndexError. *)
Definition getitem {A} (a : list A) (k : Z) : result A :=
  let n := Z.of_nat (length a) in
  let k' := if bool_decide (k < 0) then k + n else k in
  if bool_decide (0 ≤ k' < n)
  then match a !! Z.to_nat k' with Some x => Ok x | None => Raise IndexError end
  else Raise IndexError.

(** [a[ks]] for an integer array [ks]. *)
Definition take {A} (a : list A) (ks : list Z) : result (list A) :=
  traverse (getitem a) ks.

(** [a[mask]] for a boolean array [mask] of the length of [a]. *)
Fixpoint compress {A} (mask : list bool) (a : list A) : list A :=
  match mask, a with
  | b :: mask', x :: a' => if b then x :: compress mask' a' else compress mask' a'
  | _, _ => []
  end.

(** Row [i] of [np.eye(n, dtype=np.uint8)]. *)
Definition eye_row (n i : nat) : list Z :=
  (λ j, if bool_decide (i = j) then 1 else 0) <$> seq 0 n.

Definition eye (n : nat) : list (list Z) := eye_row n <$> seq 0 n.

(** [np.argwhere] of a 2-d boolean array: the index pairs of its true
    entries, in row-major order. *)
Fixpoint nonzero_from (j : nat) (row : list bool) : list nat :=
  match row with
  | [] => []
  | b :: row' => (if b then [j] else []) ++ nonzero_from (S j) row'
  end.

Fixpoint argwhere_from (i : nat) (m : list (list bool)) : list (nat * nat) :=
  match m with
  | [] => []
  | row :: m' => (pair i <$> nonzero_from 0 row) ++ argwhere_from (S i) m'
  end.

Definition argwhere (m : list (list bool)) : list (nat * nat) :=
  argwhere_from 0 m.

(** [labels[arr[:, 0]] = arr[:, 1]]: the assignments are made in the order
    of [arr], so the last pair for an index is the one that stays. *)
Definition assign_pairs (labels : list Z) (arr : list (nat * nat)) : list Z :=
  foldl (λ acc p, <[p.1 := Z.of_nat p.2]> acc) labels arr.

(** [np.argmax] of one non-empty row: the first index that holds the
    maximum. *)
Fixpoint argmax_from (best_i : nat) (best : Z) (j : nat) (row : list Z) : nat :=
  match row with
  | [] => best_i
  | x :: row' =>
      if bool_decide (best < x) then argmax_from j x (S j) row'
      else argmax_from best_i best (S j) row'
  end.

Definition argmax_row (row : list Z) : nat :=
  match row with
  | [] => 0%nat
  | x :: row' => argmax_from 0 x 1 row'
  end.

(** [np.argmax(m, axis=-1)]: numpy refuses a last axis of length 0
    ("attempt to get argmax of an empty sequence"), whatever the number of
    rows. *)
Definition argmax (m : matrix) : result (list Z) :=
  if bool_decide (n_cols m = 0%nat) then Raise ValueError
  else Ok ((λ row, Z.of_nat (argmax_row row)) <$> rows m).

(** [np.sum(m, axis=-1)]. *)
Definition sum_row (row : list Z) : Z := foldr Z.add 0 row.

End np.

(** [_mask_assign(shape, mask, values, init)] for a 1-d [mask]:
    [np.full(shape, init)], then [array[mask] = values].  The assignment
    takes one value per true position, in order; a single value is broadcast;
    any other number of values raises ValueError, and a mask that does not
    fit the array raises IndexError. *)
Fixpoint scatter {A} (array : list A) (mask : list bool) (values : list A) : list A :=
  match array, mask with
  | x :: array', b :: mask' =>
      if b then
        match values with
        | v :: values' => v :: scatter array' mask' values'
        | [] => x :: scatter array' mask' []
        end
      else x :: scatter array' mask' values
  | _, _ => array
  end.

Definition count_true (mask : list bool) : nat := length (filter (λ b, b = true) mask).
Global Arguments count_true : simpl never.

Definition _mask_assign {A} (shape : nat) (mask : list bool) (values : list A) (init : A)
  : result (list A) :=
  let array := replicate shape init in
  if bool_decide (length mask = shape) then
    if bool_decide (length values = count_true mask) then Ok (scatter array mask values)
    else match values with
         | [v] => Ok (scatter array mask (replicate (count_true mask) v))
         | _ => Raise ValueError
         end
  else Raise IndexError.

(** ** pandas: labelled tables and categorical series *)

Module pd.
Section defs.
Context {V : Type} `{EqDecision V}.

(** [pd.DataFrame(data=..., columns=...)]. *)
Record DataFrame : Type := { values : np.matrix; columns : list V }.

(** A series of categorical dtype: its category dictionary and one code per
    entry, [-1] for a missing entry. *)
Record Categorical : Type := { cat_categories : list V; cat_codes : list Z }.

Definition cat_value (categories : list V) (c : Z) : option V :=
  if bool_decide (c < 0) then None else categories !! Z.to_nat c.

(** The entries of the series, [None] where the code is [-1]. *)
Definition cat_values (s : Categorical) : list (option V) :=
  cat_value (cat_categories s) <$> cat_codes s.

Definition recode (new_categories : list V) (v : option V) : Z :=
  match v with
  | None => -1
  | Some v =>
      match list_find (λ c, c = v) new_categories with
      | Some (i, _) => Z.of_nat i
      | None => -1
      end
  end.

(** [s.cat.set_categories(new_categories)]: every entry is coded against
    the new dictionary, an entry outside it becomes [-1]; a dictionary with
    a repeated category is refused. *)
Definition cat_set_categories (s : Categorical) (new_categories : list V)
  : result Categorical :=
  if bool_decide (NoDup new_categories)
  then Ok {| cat_categories := new_categories;
             cat_codes := recode new_categories <$> cat_values s |}
  else Raise ValueError.

(** [pd.Categorical.from_codes(codes, categories)]. *)
Definition from_codes (codes : list Z) (categories : list V) : result Categorical :=
  if bool_decide (NoDup categories) then
    if bool_decide (Forall (λ c, -1 ≤ c < Z.of_nat (length categories)) codes)
    then Ok {| cat_categories := categories; cat_codes := codes |}
    else Raise ValueError
  else Raise ValueError.

End defs.
Global Arguments DataFrame : clear implicits.
Global Arguments Categorical : clear implicits.
End pd.

(** [np.unique]: the distinct elements, sorted. *)
Definition np_unique {V : Type} `{EqDecision V} (V_le : relation V)
    `{!RelDecision V_le} (a : list V) : list V :=
  merge_sort V_le (remove_dups a).

(** ** class OneHotEncoder *)

Module OneHotEncoder.
Section defs.
Context {V : Type} `{EqDecision V} (V_le : relation V) `{!RelDecision V_le}.

Record t : Type := { _categories : option (list V) }.

Definition __init__ : t := {| _categories := None |}.

Definition categories (self : t) : result (list V) :=
  match _categories self with
  | None => Raise (ProgrammingError "Encoder not fitted!")
  | Some categories => Ok categories
  end.

Definition set_categories (self : t) (categories : list V) : t :=
  {| _categories := Some categories |}.

Definition n_categories (self : t) : result nat :=
  categories ← categories self; Ok (length categories).

(** [fit] returns [self], here the encoder after the assignment. *)
Definition fit (self : t) (samples : list V) : t :=
  set_categories self (np_unique V_le samples).

Definition transform_to_labels (self : t) (samples : list V) : result (list Z) :=
  categories ← categories self;
  let arr := np.argwhere ((λ s, (λ c, bool_decide (c = s)) <$> (categories : list V)) <$> samples) in
  let labels := replicate (length samples) 0 in
  Ok (np.assign_pairs labels arr).

Definition transform_from_labels (self : t) (labels : list Z) : result np.matrix :=
  n ← n_categories self;
  rows ← np.take (np.eye n) labels;
  Ok (np.Matrix n rows).

Definition transform (self : t) (samples : list V) : result np.matrix :=
  labels ← transform_to_labels self samples;
  transform_from_labels self labels.

Definition inverse_from_labels (self : t) (labels : list Z) : result (list V) :=
  categories ← categories self;
  np.take categories labels.

Definition inverse_to_labels (encoded : np.matrix) : result (list Z) :=
  np.argmax encoded.

Definition inverse (self : t) (encoded : np.matrix) : result (list V) :=
  labels ← inverse_to_labels encoded;
  inverse_from_labels self labels.

End defs.
Global Arguments t : clear implicits.
End OneHotEncoder.

(** ** class NanHotEncoder(OneHotEncoder) *)

Module NanHotEncoder.
Section defs.
Context {V : Type} `{EqDecision V} (V_le : relation V) `{!RelDecision V_le}.
Abbreviation t := (OneHotEncoder.t V).

Definition __init__ : t := OneHotEncoder.__init__.

(** [samples[~pd.isnull(samples)]] keeps the entries that are present. *)
Definition fit (self : t) (samples : list (option V)) : t :=
  OneHotEncoder.fit V_le self (omap id samples).

Definition transform_from_labels (self : t) (labels : list (option Z))
  : result (pd.DataFrame V) :=
  let nans := (λ l, bool_decide (l = None)) <$> labels in
  encoded ← OneHotEncoder.transform_from_labels self (omap id labels);
  n ← OneHotEncoder.n_categories self;
  encoded ← _mask_assign (length labels) (negb <$> nans) (np.rows encoded)
              (replicate n 0);
  categories ← OneHotEncoder.categories self;
  Ok {| pd.values := np.Matrix n encoded; pd.columns := categories |}.

(** [transform_from_labels] on labels of any number of axes, at least one:
    [axes] lists the lengths of the axes after the first and [labels] the
    entries in C order.  Labels of more than one axis are refused before
    anything else is read. *)
Definition transform_from_labels_nd (self : t) (axes : list nat)
    (labels : list (option Z)) : result (pd.DataFrame V) :=
  if bool_decide (axes ≠ []) then
    Raise (ProgrammingError "Encoder only accepts 1-dimensional data.")
  else transform_from_labels self labels.

(** The method the source spells [inverse_to_lables]. *)
Definition inverse_to_lables (encoded : np.matrix) : result (list (option Z)) :=
  let nans := (λ row, bool_decide (np.sum_row row = 0)) <$> np.rows encoded in
  inverted ← OneHotEncoder.inverse_to_labels
    (np.Matrix (np.n_cols encoded) (np.compress (negb <$> nans) (np.rows encoded)));
  _mask_assign (length (np.rows encoded)) (negb <$> nans) (Some <$> inverted) None.

(** [inverse_to_labels] is not defined by the subclass: the name resolves
    to the static method of [OneHotEncoder]. *)
Definition inverse_to_labels (encoded : np.matrix) : result (list Z) :=
  OneHotEncoder.inverse_to_labels encoded.

Definition transform_to_labels (self : t) (samples : list (option V))
  : result (list (option Z)) :=
  categories ← OneHotEncoder.categories self;
  let mask := (λ s, match s with
                    | None => true
                    | Some v => negb (bool_decide (v ∈ categories))
                    end) <$> samples in
  labels ← OneHotEncoder.transform_to_labels self
    (omap id (np.compress (negb <$> mask) samples));
  _mask_assign (length samples) (negb <$> mask) (Some <$> labels) None.

(** [series[~series.isnull()] = inverted] writes the inverted categories
    over the labels that are present and leaves the missing ones missing. *)
Definition inverse_from_labels (self : t) (labels : list (option Z))
  : result (list (option V)) :=
  inverted ← OneHotEncoder.inverse_from_labels self (omap id labels);
  Ok (scatter ((λ _, None) <$> labels) ((λ l, bool_decide (l ≠ None)) <$> labels)
        (Some <$> inverted)).

Definition transform (self : t) (samples : list (option V)) : result (pd.DataFrame V) :=
  labels ← transform_to_labels self samples;
  transform_from_labels self labels.

Definition inverse (self : t) (encoded : np.matrix) : result (list (option V)) :=
  labels ← inverse_to_labels encoded;
  inverse_from_labels self (Some <$> labels).

End defs.
End NanHotEncoder.

(** ** class CatHotEncoder(OneHotEncoder) *)

Module CatHotEncoder.
Section defs.
Context {V : Type} `{EqDecision V} (V_le : relation V) `{!RelDecision V_le}.
Abbreviation t := (OneHotEncoder.t V).

Definition __init__ : t := OneHotEncoder.__init__.

Definition fit (self : t) (samples : pd.Categorical V) : t :=
  OneHotEncoder.fit V_le self (pd.cat_categories samples).

Definition transform_from_labels (self : t) (labels : list Z)
  : result (pd.DataFrame V) :=
  let nans := (λ l, bool_decide (l = -1)) <$> labels in
  encoded ← OneHotEncoder.transform_from_labels self (np.compress (negb <$> nans) labels);
  n ← OneHotEncoder.n_categories self;
  encoded ← _mask_assign (length labels) (negb <$> nans) (np.rows encoded)
              (replicate n 0);
  categories ← OneHotEncoder.categories self;
  Ok {| pd.values := np.Matrix n encoded; pd.columns := categories |}.

(** [transform_from_labels] on labels of any number of axes, at least one,
    as in [NanHotEncoder]: more than one axis is refused before anything
    else is read. *)
Definition transform_from_labels_nd (self : t) (axes : list nat)
    (labels : list Z) : result (pd.DataFrame V) :=
  if bool_decide (axes ≠ []) then
    Raise (ProgrammingError "Encoder only accepts 1-dimensional data.")
  else transform_from_labels self labels.

(** The method the source spells [inverse_to_lables]. *)
Definition inverse_to_lables (encoded : np.matrix) : result (list Z) :=
  let nans := (λ row, bool_decide (np.sum_row row = 0)) <$> np.rows encoded in
  inverted ← OneHotEncoder.inverse_to_labels
    (np.Matrix (np.n_cols encoded) (np.compress (negb <$> nans) (np.rows encoded)));
  _mask_assign (length (np.rows encoded)) (negb <$> nans) inverted (-1).

(** As in [NanHotEncoder], [inverse_to_labels] is the inherited one. *)
Definition inverse_to_labels (encoded : np.matrix) : result (list Z) :=
  OneHotEncoder.inverse_to_labels encoded.

Definition transform_to_labels (self : t) (samples : pd.Categorical V)
  : result (list Z) :=
  Raise (ProgrammingError
           "Redundant action for pd.Categorical. Use series.cat.codes instead.").

Definition inverse_from_labels (self : t) (labels : list Z)
  : result (pd.Categorical V) :=
  Raise (ProgrammingError
           "Redundant action for pd.Categorical. Use pd.Categorical.from_codes instead.").

Definition transform (self : t) (samples : pd.Categorical V)
  : result (pd.DataFrame V) :=
  categories ← OneHotEncoder.categories self;
  recoded ← pd.cat_set_categories samples categories;
  transform_from_labels self (pd.cat_codes recoded).

Definition inverse (self : t) (encoded : np.matrix) : result (pd.Categorical V) :=
  codes ← inverse_to_labels encoded;
  categories ← OneHotEncoder.categories self;
  pd.from_codes codes categories.

End defs.
End CatHotEncoder.

(** ** n-d arrays for the SOM measures *)

Module nd.

(** An array in C order: [data] lists the elements with the last axis
    running fastest. *)
Record ndarray (A : Type) : Type := NDArray { shape : list nat; data : list A }.
Global Arguments NDArray {A} shape data.
Global Arguments shape {A} _.
Global Arguments data {A} _.

(** The number of elements of an array of a given shape. *)
Definition size (shape : list nat) : nat := foldr Nat.mul 1%nat shape.

Definition wf {A} (a : ndarray A) : Prop := length (data a) = size (shape a).

(** [shape[:-2]] and [shape[-2:]]. *)
Definition but_last2 (shape : list nat) : list nat := take (length shape - 2) shape.
Definition last2 (shape : list nat) : list nat := drop (length shape - 2) shape.

(** The coordinates of a grid, in C order: the columns of
    [np.indices(shape).reshape(len(shape), -1)], which the loop of [umatrix]
    visits one by one. *)
Fixpoint ndindex (shape : list nat) : list (list nat) :=
  match shape with
  | [] => [[]]
  | n :: shape' => i ← seq 0 n; cons i <$> ndindex shape'
  end.

(** The position in [data] of the element at a coordinate. *)
Fixpoint ravel_multi_index (i shape : list nat) : nat :=
  match i, shape with
  | k :: i', _ :: shape' => (k * size shape' + ravel_multi_index i' shape')%nat
  | _, _ => 0%nat
  end.

(** [np.unravel_index(k, shape)] for [k < size shape]. *)
Fixpoint unravel_index (k : nat) (shape : list nat) : list nat :=
  match shape with
  | [] => []
  | _ :: shape' => (k / size shape')%nat :: unravel_index (k mod size shape')%nat shape'
  end.

(** [a[i]] for a coordinate [i] of the leading axes [lead]: the sub-array
    over the remaining axes, flattened. *)
Definition subarray {A} (a : ndarray A) (lead i : list nat) : list A :=
  let block := size (drop (length lead) (shape a)) in
  take block (drop (ravel_multi_index i lead * block) (data a)).

End nd.

(** ** antero.som.measures *)

Module measures.
Import nd.

(** *** umatrix, on binary64 *)

(** An index difference as a float; exact below 2^53. *)
Definition of_Z (z : Z) : float :=
  if bool_decide (z < 0) then (- of_uint63 (Uint63.of_Z (- z)))%float
  else of_uint63 (Uint63.of_Z z).

(** [np.linalg.norm(v)] of a flattened array: the root of [v.dot(v)], the
    dot product added in index order with every product and sum rounded.
    numpy leaves the order to its BLAS, so the last bit can differ where a
    partial sum is not exact. *)
Definition linalg_norm (v : list float) : float :=
  PrimFloat.sqrt (foldl (λ acc x, acc + x * x)%float 0%float v).

(** [np.mean]: the sum over the count; of no element it is 0/0, NaN. *)
Definition mean (v : list float) : float :=
  match v with
  | [] => (0 / 0)%float
  | x :: v' => (foldl PrimFloat.add x v' / of_Z (Z.of_nat (length v)))%float
  end.

(** One entry of [np.linalg.norm(indices - i, axis=0)]: the distance in
    index space from coordinate [i] to coordinate [j]. *)
Definition index_distance (i j : list nat) : float :=
  linalg_norm (zip_with (λ b a, of_Z (Z.of_nat b - Z.of_nat a)) j i).

(** The body of the loop of [umatrix] for the coordinate [i]. *)
Definition umatrix_step (weights : ndarray float) (d : float) (map_shape : list nat)
    (indices : list (list nat)) (distances : list float) (i : list nat) : list float :=
  let locs :=
    filter (λ j, let ix_d := index_distance i j in
                 (0 <? ix_d)%float && (ix_d <=? d)%float = true) indices in
  let dist :=
    linalg_norm
      (mjoin ((λ j, zip_with PrimFloat.sub (subarray weights map_shape j)
                                          (subarray weights map_shape i)) <$> locs)) in
  <[ravel_multi_index i map_shape := mean [dist]]> distances.

(** [indices.reshape(indices.shape[0], -1)] raises ValueError for a grid of
    no axis: [np.indices(())] has no element, and numpy cannot tell the
    length that [-1] stands for. *)
Definition umatrix (weights : ndarray float) (d : float) : result (ndarray float) :=
  let map_shape := but_last2 (shape weights) in
  let distances := replicate (size map_shape) 0%float in
  if bool_decide (map_shape = []) then Raise ValueError
  else
    let indices := ndindex map_shape in
    Ok (NDArray map_shape
          (foldl (umatrix_step weights d map_shape indices) distances indices)).

(** *** topographic_error, on binary64 *)

(** The order in which numpy sorts floats: a number before every number
    that is not smaller, NaN after every number. *)
Definition np_leb (a b : float) : bool := is_nan b || (a <=? b)%float.

(** [np.argsort] of a column lists the positions ordered by the value they
    hold.  numpy's default sort is not stable, so the order among equal
    values is not fixed: [topographic_error] is embedded over any function
    [np_argsort] that [sorts], and [argsort], a merge sort, is one. *)
Definition key_le (keys : list float) (i j : nat) : Prop :=
  np_leb (nth i keys 0%float) (nth j keys 0%float) = true.

Global Instance key_le_dec keys : RelDecision (key_le keys).
Proof. intros i j. unfold key_le. apply _. Defined.

Definition sorts (np_argsort : list float → list nat) : Prop :=
  ∀ keys, np_argsort keys ≡ₚ seq 0 (length keys) ∧
          StronglySorted (key_le keys) (np_argsort keys).

Definition argsort (keys : list float) : list nat :=
  merge_sort (key_le keys) (seq 0 (length keys)).

(** [np.sum(..., axis=-1)] of a float array adds the numbers of a row in an
    order that is numpy's own (one after the other for a short row, in
    blocks for a long one), and every addition rounds:
    [topographic_error] is embedded over any function [np_sum] from a row to
    its sum.  [sum_in_order] adds one number after the other, as numpy does
    for a row of fewer than 8 numbers. *)
Definition sum_in_order (v : list float) : float := foldl PrimFloat.add 0%float v.

(** [np.linalg.norm(v)] of a vector of integers: numpy converts it to
    float64 and returns the root of [v.dot(v)].  A sum of squares of
    integers is exact in binary64, in whatever order it is added, as long as
    it stays below 2^53; the root is rounded once. *)
Definition linalg_norm_int (v : list Z) : float :=
  PrimFloat.sqrt (of_Z (foldl (λ acc d, acc + d * d) 0 v)).

(** [np.linalg.norm(a - b) > r] for two columns of integer coordinates. *)
Definition norm_exceeds (a b : list nat) (r : float) : bool :=
  PrimFloat.ltb r (linalg_norm_int (zip_with (λ x y, Z.of_nat x - Z.of_nat y) a b)).

(** [k] consecutive blocks of [n] elements. *)
Definition blocks {A} (n k : nat) (l : list A) : list (list A) :=
  (λ c, take n (drop (c * n) l)) <$> seq 0 k.

(** [weights - x] for float64 [weights] of shape
    [map_shape + (1, n_features)] and [x] of shape [(n_data, n_features)]:
    for every unit and every sample, the difference of the two vectors,
    every entry rounded.  This is the layout for which the broadcast pairs
    every unit with every sample; the embedding covers no other and answers
    with the ValueError numpy raises when two shapes do not broadcast (as
    for a grid axis in the place of the axis of length 1). *)
Definition broadcast_sub (weights x : ndarray float)
  : result (list (list (list float))) :=
  match shape x, last2 (shape weights) with
  | [n_data; f], [1%nat; f'] =>
      if bool_decide (f = f') then
        Ok ((λ w, (λ s, zip_with PrimFloat.sub w s) <$> blocks f n_data (data x))
              <$> blocks f (size (but_last2 (shape weights))) (data weights))
      else Raise ValueError
  | _, _ => Raise ValueError
  end.

(** [np.sum(diff ** 2, axis=-1, keepdims=True).reshape(-1, n_data)]: one
    row per unit, one column per sample; [** 2] is the rounded product of a
    number with itself. *)
Definition distances (np_sum : list float → float) (diff : list (list (list float)))
  : list (list float) :=
  (λ u : list (list float), (λ v, np_sum ((λ d, d * d)%float <$> v)) <$> u) <$> diff.

(** [np.argsort(..., axis=0)[:2, :].ravel()]: the best unit of every sample,
    then the second best of every sample; a grid of one unit has no second
    row. *)
Definition bmus (np_argsort : list float → list nat) (dist : list (list float))
    (n_data : nat) : list nat :=
  let order := (λ s, np_argsort ((λ row, nth s row 0%float) <$> dist)) <$> seq 0 n_data in
  mjoin ((λ r, (λ o, nth r o 0%nat) <$> order) <$> seq 0 (Nat.min 2 (length dist))).

Definition column {A} (b_ix : list A) (k : nat) : result A :=
  match b_ix !! k with Some c => Ok c | None => Raise IndexError end.

(** [np.mean] of an array of integers or booleans, as the exact quotient
    that numpy rounds to binary64. *)
Definition mean_int (errors : list Z) : Q :=
  (inject_Z (foldr Z.add 0%Z errors) / inject_Z (Z.of_nat (length errors)))%Q.

(** [dist.reshape(-1, n_data)] raises ValueError for [n_data = 0], and so
    does the reshape of the unravelled indices for a grid of no axis. *)
Definition topographic_error (np_argsort : list float → list nat)
    (np_sum : list float → float)
    (weights x : ndarray float) (neighbor_radius : float) : result Q :=
  let n_data := hd 0%nat (shape x) in
  let map_shape := but_last2 (shape weights) in
  diff ← broadcast_sub weights x;
  let dist := distances np_sum diff in
  if bool_decide (n_data = 0%nat) then Raise ValueError
  else if bool_decide (map_shape = []) then Raise ValueError
  else
    let b_ix := (λ k, unravel_index k map_shape) <$> bmus np_argsort dist n_data in
    errors ← traverse (λ i,
                b1 ← column b_ix i;
                b2 ← column b_ix (i + n_data);
                Ok (if norm_exceeds b1 b2 neighbor_radius then 1 else 0))
              (seq 0 n_data);
    Ok (mean_int errors).

(** *** embedding_accuracy *)

(** The samples [x] of [embedding_accuracy]: a 2-d array of shape
    [(length batch_rows, batch_features)], every row of which has
    [batch_features] entries. *)
Record batch : Type := Batch { batch_features : nat; batch_rows : list (list Q) }.

(** [a[:, f]] of a 2-d array given by its rows. *)
Definition feature (f : nat) (rows : list (list Q)) : list Q :=
  (λ row, nth f row 0%Q) <$> rows.

(** [p > alpha]. *)
Definition exceeds (alpha p : Q) : bool :=
  if Qlt_le_dec alpha p then true else false.

(** [scipy.stats.ks_2samp] is not part of the repository: the function is
    embedded over any [ks_2samp] that returns a statistic and a p-value or
    raises.  [weights.reshape(-1, features)] raises ValueError when
    [features] is 0 or does not divide the number of weights.  [np.mean] of
    the boolean array is the fraction of its true entries. *)
Definition embedding_accuracy (ks_2samp : list Q → list Q → result (Q * Q))
    (weights : ndarray Q) (x : batch) (alpha : Q) : result Q :=
  let features := batch_features x in
  if bool_decide (features = 0%nat) then Raise ValueError
  else if bool_decide ((size (shape weights) mod features)%nat ≠ 0%nat)
  then Raise ValueError
  else
    let w := blocks features (size (shape weights) / features) (data weights) in
    pvals ← traverse (λ f, r ← ks_2samp (feature f (batch_rows x)) (feature f w);
                           Ok (r.2 : Q))
               (seq 0 features);
    Ok (mean_int ((λ p : Q, if exceeds alpha p then 1 else 0) <$> (pvals : list Q))).

End measures.

(** ** The encoders of the docstrings *)

Module doctest.

(** Strings in the order [np.unique] sorts them. *)
Definition str_le (a b : string) : Prop := String.leb a b = true.

Global Instance str_le_dec : RelDecision str_le :=
  λ a b, decide (String.leb a b = true).

(** [OneHotEncoder().fit(np.array(['a', 'b', 'c', 'd']))] *)
Definition oh : OneHotEncoder.t string :=
  OneHotEncoder.fit str_le OneHotEncoder.__init__ ["a"; "b"; "c"; "d"]%string.

(** [NanHotEncoder().fit(np.array(['a', 'b', 'c', 'd']))] *)
Definition nh : OneHotEncoder.t string :=
  NanHotEncoder.fit str_le NanHotEncoder.__init__
    [Some "a"; Some "b"; Some "c"; Some "d"]%string.

(** [pd.Series(pd.Categorical([np.nan, 'c', 'd', 'a', 'b', 'c', 'c']))] *)
Definition s : pd.Categorical string :=
  {| pd.cat_categories := ["a"; "b"; "c"; "d"]%string;
     pd.cat_codes := [-1; 2; 3; 0; 1; 2; 2] |}.

(** [CatHotEncoder().fit(s)] *)
Definition ch : OneHotEncoder.t string := CatHotEncoder.fit str_le CatHotEncoder.__init__ s.

End doctest.

(** * Properties *)

(** ** Lists, masks and the exception monad *)

Ltac case_decisions :=
  repeat (case_bool_decide; simplify_eq/=; try lia; try done).

Lemma traverse_Ok {A B} (f : A → result B) (g : A → B) (l : list A) :
  (∀ x, x ∈ l → f x = Ok (g x)) → traverse f l = Ok (g <$> l).
Proof.
  induction l as [|x l IH]; intros Hf; [done|].
  cbn. rewrite (Hf x) by left. cbn.
  rewrite IH; [done|]. intros y Hy. apply Hf. by right.
Qed.

Lemma traverse_Forall {A B} (P : B → Prop) (f : A → result B) (l : list A) ys :
  (∀ x y, f x = Ok y → P y) → traverse f l = Ok ys → Forall P ys.
Proof.
  intros Hf. revert ys. induction l as [|x l IH]; intros ys; cbn.
  - intros [= <-]. constructor.
  - destruct (f x) as [y|] eqn:Hx; cbn; [|done].
    destruct (traverse f l) as [ys'|]; cbn; [|done].
    intros [= <-]. constructor; eauto.
Qed.

Lemma traverse_length {A B} (f : A → result B) (l : list A) ys :
  traverse f l = Ok ys → length ys = length l.
Proof.
  revert ys. induction l as [|x l IH]; intros ys; cbn.
  - by intros [= <-].
  - destruct (f x); cbn; [|done]. destruct (traverse f l); cbn; [|done].
    intros [= <-]. cbn. f_equal. by apply IH.
Qed.

Lemma count_true_all (mask : list bool) :
  Forall (λ b, b = true) mask → count_true mask = length mask.
Proof.
  unfold count_true. induction 1 as [|b mask -> _ IH]; [done|].
  rewrite filter_cons_True by done. cbn. by rewrite IH.
Qed.

Lemma compress_all {A} (mask : list bool) (a : list A) :
  Forall (λ b, b = true) mask → length mask = length a → np.compress mask a = a.
Proof.
  intros Hall. revert a. induction Hall as [|b mask -> _ IH]; intros [|x a] ?;
    simplify_eq/=; [done|]. f_equal. apply IH. lia.
Qed.

Lemma scatter_all {A} (array : list A) (mask : list bool) (values : list A) :
  Forall (λ b, b = true) mask → length mask = length array →
  length values = length array → scatter array mask values = values.
Proof.
  intros Hall. revert array values.
  induction Hall as [|b mask -> _ IH]; intros [|x array] [|v values] ? ?;
    simplify_eq/=; [done|]. f_equal. apply IH; lia.
Qed.

Lemma scatter_Forall {A} (P : A → Prop) (array : list A) mask values :
  Forall P array → Forall P values → Forall P (scatter array mask values).
Proof.
  intros Harr. revert mask values.
  induction Harr as [|x array Hx Harr IH]; intros [|b mask] values Hv; cbn;
    try (by constructor).
  destruct b; [destruct Hv as [|v values Hv1 Hv2]|]; constructor; auto.
Qed.

Lemma scatter_length {A} (array : list A) mask values :
  length (scatter array mask values) = length array.
Proof.
  revert mask values. induction array as [|x array IH]; intros [|b mask] values;
    cbn; try done.
  destruct b; [destruct values|]; cbn; by rewrite IH.
Qed.

Lemma mask_assign_all {A} shape (mask : list bool) (values : list A) (init : A) :
  Forall (λ b, b = true) mask → length mask = shape → length values = shape →
  _mask_assign shape mask values init = Ok values.
Proof.
  intros Hall Hmask Hlen. unfold _mask_assign.
  rewrite bool_decide_true by done.
  rewrite bool_decide_true by (rewrite count_true_all by done; lia).
  f_equal. apply scatter_all; [done|rewrite length_replicate; lia..].
Qed.

Lemma mask_assign_Forall {A} (P : A → Prop) shape mask (values : list A) init r :
  _mask_assign shape mask values init = Ok r →
  Forall P values → P init → Forall P r.
Proof.
  unfold _mask_assign. intros Hr Hv Hi.
  assert (Forall P (replicate shape init)) by (by apply Forall_replicate).
  repeat case_bool_decide; simplify_eq; try by apply scatter_Forall.
  destruct values as [|v [|]]; simplify_eq.
  apply scatter_Forall; [done|]. apply Forall_replicate. by inversion Hv.
Qed.

(** ** argmax and the identity matrix *)

(** [i] is the first position of [row] that holds its maximum. *)
Definition is_first_max (row : list Z) (i : nat) : Prop :=
  ∃ m, row !! i = Some m ∧ (∀ x, x ∈ row → x ≤ m) ∧
       (∀ j x, (j < i)%nat → row !! j = Some x → x < m).

Lemma is_first_max_unique row i j : is_first_max row i → is_first_max row j → i = j.
Proof.
  intros (m & Hi & Hmax & Hfirst) (m' & Hj & Hmax' & Hfirst').
  destruct (Nat.lt_trichotomy i j) as [Hlt|[->|Hlt]]; [|done|].
  - pose proof (Hfirst' _ _ Hlt Hi).
    pose proof (Hmax m' (list_elem_of_lookup_2 _ _ _ Hj)). lia.
  - pose proof (Hfirst _ _ Hlt Hj).
    pose proof (Hmax' m (list_elem_of_lookup_2 _ _ _ Hi)). lia.
Qed.

Lemma argmax_from_first_max (pre row : list Z) (best_i : nat) (best : Z) :
  pre !! best_i = Some best →
  (∀ x, x ∈ pre → x ≤ best) →
  (∀ j x, (j < best_i)%nat → pre !! j = Some x → x < best) →
  is_first_max (pre ++ row) (np.argmax_from best_i best (length pre) row).
Proof.
  revert pre best_i best.
  induction row as [|x row IH]; intros pre best_i best Hbest Hmax Hfirst; cbn.
  { rewrite app_nil_r. by exists best. }
  replace (pre ++ x :: row) with ((pre ++ [x]) ++ row) by by rewrite <-app_assoc.
  replace (S (length pre)) with (length (pre ++ [x]))
    by (rewrite length_app; cbn; lia).
  case_bool_decide as Hlt; apply IH.
  - by rewrite lookup_app_r, Nat.sub_diag.
  - intros y [Hy| ->%list_elem_of_singleton]%elem_of_app; [|lia].
    specialize (Hmax _ Hy). lia.
  - intros j y Hj Hy. rewrite lookup_app_l in Hy by done.
    specialize (Hmax y (list_elem_of_lookup_2 _ _ _ Hy)). lia.
  - rewrite lookup_app_l; [done|]. by eapply lookup_lt_Some.
  - intros y [Hy| ->%list_elem_of_singleton]%elem_of_app; [by apply Hmax|lia].
  - intros j y Hj Hy. apply (Hfirst j); [done|].
    rewrite lookup_app_l in Hy; [done|].
    apply lookup_lt_Some in Hbest. lia.
Qed.

Lemma argmax_row_first_max (row : list Z) :
  row ≠ [] → is_first_max row (np.argmax_row row).
Proof.
  destruct row as [|x row]; [done|]. intros _.
  apply (argmax_from_first_max [x] row 0 x); [done|..].
  - by intros y ->%list_elem_of_singleton.
  - intros; lia.
Qed.

Lemma argmax_row_zeros (row : list Z) :
  Forall (λ x, x = 0) row → np.argmax_row row = 0%nat.
Proof.
  destruct 1 as [|x row -> Hrow]; [done|]. cbn.
  generalize 1%nat. induction Hrow as [|x row -> _ IH]; intros j; [done|].
  cbn. apply IH.
Qed.

Lemma eye_row_length n i : length (np.eye_row n i) = n.
Proof. unfold np.eye_row. by rewrite length_fmap, length_seq. Qed.

Lemma eye_row_lookup n i j :
  (j < n)%nat → np.eye_row n i !! j = Some (if bool_decide (i = j) then 1 else 0).
Proof.
  intros Hj. unfold np.eye_row. by rewrite list_lookup_fmap, lookup_seq_lt.
Qed.

Lemma eye_row_elem n i x : x ∈ np.eye_row n i → x = 0 ∨ x = 1.
Proof.
  unfold np.eye_row. intros (j & -> & _)%list_elem_of_fmap.
  case_bool_decide; auto.
Qed.

Lemma eye_row_first_max n i : (i < n)%nat → is_first_max (np.eye_row n i) i.
Proof.
  intros Hi. exists 1. split_and!.
  - rewrite eye_row_lookup by done. by rewrite bool_decide_true.
  - intros x [-> | ->]%eye_row_elem; lia.
  - intros j x Hj. rewrite eye_row_lookup by lia.
    rewrite bool_decide_false by lia. intros [= <-]. lia.
Qed.

Lemma argmax_eye_row n i : (i < n)%nat → np.argmax_row (np.eye_row n i) = i.
Proof.
  intros Hi. apply (is_first_max_unique (np.eye_row n i)).
  - apply argmax_row_first_max. intros Hnil.
    pose proof (eye_row_length n i) as Hlen. rewrite Hnil in Hlen. cbn in Hlen. lia.
  - by apply eye_row_first_max.
Qed.

(** The sum of a row of the identity matrix, taken inside its width. *)
Lemma sum_eye_row_from (n s i : nat) :
  np.sum_row ((λ j, if bool_decide (i = j) then 1 else 0) <$> seq s n)
  = if bool_decide (s ≤ i < s + n)%nat then 1 else 0.
Proof.
  revert s. induction n as [|n IH]; intros s; cbn.
  - by rewrite bool_decide_false by lia.
  - unfold np.sum_row in IH. rewrite IH. case_decisions.
Qed.

Lemma sum_eye_row n i : (i < n)%nat → np.sum_row (np.eye_row n i) = 1.
Proof.
  intros Hi. unfold np.eye_row. rewrite sum_eye_row_from.
  by rewrite bool_decide_true by lia.
Qed.

Lemma sum_zero_row n : np.sum_row (replicate n 0) = 0.
Proof. induction n as [|n IH]; [done|]. cbn. unfold np.sum_row in IH. by rewrite IH. Qed.

Lemma getitem_nat {A} (a : list A) (k : nat) x :
  a !! k = Some x → np.getitem a (Z.of_nat k) = Ok x.
Proof.
  intros Hk. pose proof (lookup_lt_Some _ _ _ Hk). unfold np.getitem. cbv zeta.
  rewrite (bool_decide_false (Z.of_nat k < 0)) by lia.
  rewrite bool_decide_true by lia.
  by rewrite Nat2Z.id, Hk.
Qed.

(** Whatever [a[k]] returns is an element of [a]. *)
Lemma getitem_elem_of {A} (a : list A) (k : Z) x : np.getitem a k = Ok x → x ∈ a.
Proof.
  unfold np.getitem. cbn. case_bool_decide; [|done].
  destruct (a !! _) eqn:Hk; [|done]. intros [= <-].
  by eapply list_elem_of_lookup_2.
Qed.

Lemma eye_lookup n i : (i < n)%nat → np.eye n !! i = Some (np.eye_row n i).
Proof. intros Hi. unfold np.eye. by rewrite list_lookup_fmap, lookup_seq_lt. Qed.

Lemma eye_elem n row : row ∈ np.eye n → ∃ i, (i < n)%nat ∧ row = np.eye_row n i.
Proof.
  unfold np.eye. intros (i & -> & Hi%elem_of_seq)%list_elem_of_fmap.
  exists i. split; [lia|done].
Qed.

(** ** The base encoder *)

Section base_encoder.
Context {V : Type} `{EqDecision V}.
Implicit Types (categories samples : list V) (self : OneHotEncoder.t V).

(** The label [transform_to_labels] gives one sample: the last position of
    the category set that holds it, [0] when there is none. *)
Definition eq_row categories (s : V) : list bool :=
  (λ c, bool_decide (c = s)) <$> categories.

Definition row_label (row : list bool) (old : Z) : Z :=
  match last (np.nonzero_from 0 row) with
  | Some j => Z.of_nat j
  | None => old
  end.

Definition label_of categories (s : V) : Z := row_label (eq_row categories s) 0.

Lemma nonzero_from_absent categories s j :
  s ∉ categories → np.nonzero_from j (eq_row categories s) = [].
Proof.
  revert j. induction categories as [|c categories IH]; intros j Hs; [done|].
  apply not_elem_of_cons in Hs as [Hne Hs]. cbn.
  rewrite bool_decide_false by done. by apply IH.
Qed.

Lemma nonzero_from_unique categories s j k :
  NoDup categories → categories !! k = Some s →
  np.nonzero_from j (eq_row categories s) = [(j + k)%nat].
Proof.
  intros Hnd. revert j k.
  induction Hnd as [|c categories Hc Hnd IH]; intros j [|k] Hk; simplify_eq/=.
  - rewrite bool_decide_true by done. cbn.
    rewrite (nonzero_from_absent categories s) by done. f_equal. lia.
  - rewrite bool_decide_false.
    + cbn. fold (eq_row categories s). rewrite (IH (S j) k) by done. f_equal. lia.
    + intros ->. apply Hc. by eapply list_elem_of_lookup_2.
Qed.

Lemma label_of_absent categories s : s ∉ categories → label_of categories s = 0.
Proof.
  intros Hs. unfold label_of, row_label. by rewrite nonzero_from_absent.
Qed.

Lemma label_of_unique categories s k :
  NoDup categories → categories !! k = Some s → label_of categories s = Z.of_nat k.
Proof.
  intros Hnd Hk. unfold label_of, row_label.
  by rewrite (nonzero_from_unique _ _ 0 k).
Qed.

Lemma assign_pairs_row (labels : list Z) (i : nat) (js : list nat) :
  np.assign_pairs labels (pair i <$> js)
  = match last js with
    | Some j => <[i := Z.of_nat j]> labels
    | None => labels
    end.
Proof.
  unfold np.assign_pairs. revert labels.
  induction js as [|j js IH]; intros labels; [done|].
  cbn. rewrite IH. destruct js as [|j' js]; [done|].
  rewrite last_cons_cons. destruct (last (j' :: js)) eqn:Hlast.
  - apply list_insert_insert_eq.
  - by apply last_None in Hlast.
Qed.

Lemma assign_pairs_argwhere (m : list (list bool)) (pre post : list Z) :
  length post = length m →
  np.assign_pairs (pre ++ post) (np.argwhere_from (length pre) m)
  = pre ++ zip_with row_label m post.
Proof.
  revert pre post. induction m as [|row m IH]; intros pre [|x post] Hlen;
    simplify_eq/=; [done|].
  unfold np.assign_pairs. rewrite foldl_app.
  fold (np.assign_pairs (pre ++ x :: post) (pair (length pre) <$> np.nonzero_from 0 row)).
  rewrite assign_pairs_row.
  assert (match last (np.nonzero_from 0 row) with
          | Some j => <[length pre := Z.of_nat j]> (pre ++ x :: post)
          | None => pre ++ x :: post
          end = (pre ++ [row_label row x]) ++ post) as ->.
  { unfold row_label. rewrite <-app_assoc. cbn.
    destruct (last _); [|done].
    replace (length pre) with (length pre + 0)%nat at 1 by lia.
    by rewrite insert_app_r. }
  replace (S (length pre)) with (length (pre ++ [row_label row x]))
    by (rewrite length_app; cbn; lia).
  fold (np.assign_pairs ((pre ++ [row_label row x]) ++ post)
          (np.argwhere_from (length (pre ++ [row_label row x])) m)).
  rewrite IH by done. by rewrite <-app_assoc.
Qed.

Lemma transform_to_labels_spec self categories samples :
  OneHotEncoder._categories self = Some categories →
  OneHotEncoder.transform_to_labels self samples
  = Ok (label_of categories <$> samples).
Proof.
  intros Hfit. unfold OneHotEncoder.transform_to_labels, OneHotEncoder.categories.
  rewrite Hfit. cbn. f_equal. unfold np.argwhere.
  rewrite (assign_pairs_argwhere _ [] (replicate (length samples) 0))
    by (by rewrite length_fmap, length_replicate).
  cbn. clear Hfit. induction samples as [|s samples IH]; [done|].
  cbn. by rewrite IH.
Qed.

Lemma transform_from_labels_nat self categories (ks : list nat) :
  OneHotEncoder._categories self = Some categories →
  Forall (λ k, (k < length categories)%nat) ks →
  OneHotEncoder.transform_from_labels self (Z.of_nat <$> ks)
  = Ok (np.Matrix (length categories) (np.eye_row (length categories) <$> ks)).
Proof.
  intros Hfit Hks.
  unfold OneHotEncoder.transform_from_labels, OneHotEncoder.n_categories,
    OneHotEncoder.categories.
  rewrite Hfit. cbn. unfold np.take.
  rewrite (traverse_Ok _ (λ z, np.eye_row (length categories) (Z.to_nat z))).
  - cbn. do 2 f_equal. rewrite <-list_fmap_compose. apply list_fmap_ext.
    intros _ k _. cbn. by rewrite Nat2Z.id.
  - intros z (k & -> & Hk)%list_elem_of_fmap. rewrite Nat2Z.id.
    apply getitem_nat, eye_lookup. by eapply Forall_forall in Hks.
Qed.

(** Every row that [transform_from_labels] produces is a row of the identity
    matrix, whatever the labels are. *)
Lemma transform_from_labels_rows self labels m :
  OneHotEncoder.transform_from_labels self labels = Ok m →
  Forall (λ row, ∃ i, (i < np.n_cols m)%nat ∧ row = np.eye_row (np.n_cols m) i)
    (np.rows m).
Proof.
  unfold OneHotEncoder.transform_from_labels.
  destruct (OneHotEncoder.n_categories self) as [n|]; cbn; [|done].
  destruct (np.take _ _) as [rows|] eqn:Hrows; cbn; [|done].
  intros [= <-]. cbn. eapply traverse_Forall; [|exact Hrows].
  intros k row Hrow%getitem_elem_of. by apply eye_elem.
Qed.

Lemma argmax_eye_rows n (ks : list nat) :
  n ≠ 0%nat → Forall (λ k, (k < n)%nat) ks →
  np.argmax (np.Matrix n (np.eye_row n <$> ks)) = Ok (Z.of_nat <$> ks).
Proof.
  intros Hn Hks. unfold np.argmax. cbn. rewrite bool_decide_false by done.
  f_equal. rewrite <-list_fmap_compose. apply Forall_fmap_ext_1.
  eapply Forall_impl; [exact Hks|]. intros k Hk. cbn. by rewrite argmax_eye_row.
Qed.

Lemma take_nat {A} (a : list A) (ks : list nat) (xs : list A) :
  Forall2 (λ k x, a !! k = Some x) ks xs → np.take a (Z.of_nat <$> ks) = Ok xs.
Proof.
  unfold np.take. induction 1 as [|k x ks xs Hk _ IH]; [done|].
  cbn. rewrite (getitem_nat _ _ _ Hk). cbn. by rewrite IH.
Qed.

End base_encoder.

(** ** np.unique *)

Section unique.
Context {V : Type} `{EqDecision V} (V_le : relation V) `{!RelDecision V_le}.

Lemma np_unique_NoDup (a : list V) : NoDup (np_unique V_le a).
Proof.
  unfold np_unique. rewrite merge_sort_Permutation. apply NoDup_remove_dups.
Qed.

Lemma np_unique_elem_of (a : list V) x : x ∈ np_unique V_le a ↔ x ∈ a.
Proof.
  unfold np_unique. rewrite merge_sort_Permutation. apply elem_of_remove_dups.
Qed.

End unique.

(** ** Encoding and decoding samples of the category set *)

Section round_trip.
Context {V : Type} `{EqDecision V}.
Implicit Types (categories : list V) (self : OneHotEncoder.t V).

Lemma positions_exist categories (vs : list V) :
  (∀ v, v ∈ vs → v ∈ categories) →
  ∃ ks, Forall2 (λ k v, categories !! k = Some v) ks vs.
Proof.
  induction vs as [|v vs IH]; intros Hvs; [by exists []|].
  destruct IH as [ks Hks]; [intros; apply Hvs; by right|].
  destruct (list_elem_of_lookup_1 categories v) as [k Hk]; [apply Hvs; by left|].
  exists (k :: ks). by constructor.
Qed.

Lemma positions_bounded categories ks (vs : list V) :
  Forall2 (λ k v, categories !! k = Some v) ks vs →
  Forall (λ k, (k < length categories)%nat) ks.
Proof.
  induction 1 as [|k v ks vs Hk _ IH]; constructor; [|done].
  by eapply lookup_lt_Some.
Qed.

Lemma label_of_positions categories ks (vs : list V) :
  NoDup categories → Forall2 (λ k v, categories !! k = Some v) ks vs →
  label_of categories <$> vs = Z.of_nat <$> ks.
Proof.
  intros Hnd. induction 1 as [|k v ks vs Hk _ IH]; [done|].
  cbn. by rewrite IH, (label_of_unique _ _ k).
Qed.

Lemma omap_id_Some {A} (l : list A) : omap id (Some <$> l) = l.
Proof. induction l as [|x l IH]; [done|]. cbn. by rewrite IH. Qed.

Lemma present_samples (P : V → Prop) (samples : list (option V)) :
  (∀ o, o ∈ samples → ∃ v, o = Some v ∧ P v) →
  ∃ vs, samples = Some <$> vs ∧ ∀ v, v ∈ vs → P v.
Proof.
  induction samples as [|o samples IH]; intros Hs.
  { exists []. split; [done|]. by intros v ?%elem_of_nil. }
  destruct IH as (vs & -> & Hvs); [intros; apply Hs; by right|].
  destruct (Hs o) as (v & -> & Hv); [by left|].
  exists (v :: vs). split; [done|].
  intros v' [->|?]%elem_of_cons; auto.
Qed.

(** The three steps the encoders share, on samples at the positions [ks] of
    the category set. *)
Lemma encode_positions self categories ks (vs : list V) :
  OneHotEncoder._categories self = Some categories →
  Forall2 (λ k v, categories !! k = Some v) ks vs →
  OneHotEncoder.transform_from_labels self (Z.of_nat <$> ks)
  = Ok (np.Matrix (length categories) (np.eye_row (length categories) <$> ks)).
Proof.
  intros Hfit Hks. apply transform_from_labels_nat; [done|].
  by eapply positions_bounded.
Qed.

Lemma decode_positions categories ks (vs : list V) :
  categories ≠ [] →
  Forall2 (λ k v, categories !! k = Some v) ks vs →
  OneHotEncoder.inverse_to_labels
    (np.Matrix (length categories) (np.eye_row (length categories) <$> ks))
  = Ok (Z.of_nat <$> ks).
Proof.
  intros Hne Hks. apply argmax_eye_rows; [by destruct categories|].
  by eapply positions_bounded.
Qed.

Lemma inverse_from_positions self categories ks (vs : list V) :
  OneHotEncoder._categories self = Some categories →
  Forall2 (λ k v, categories !! k = Some v) ks vs →
  OneHotEncoder.inverse_from_labels self (Z.of_nat <$> ks) = Ok vs.
Proof.
  intros Hfit Hks. unfold OneHotEncoder.inverse_from_labels, OneHotEncoder.categories.
  rewrite Hfit. cbn. by apply take_nat.
Qed.

Lemma OneHot_round_trip self categories (samples : list V) :
  OneHotEncoder._categories self = Some categories →
  NoDup categories → categories ≠ [] →
  (∀ s, s ∈ samples → s ∈ categories) →
  OneHotEncoder.transform self samples ≫= OneHotEncoder.inverse self = Ok samples.
Proof.
  intros Hfit Hnd Hne Hs. destruct (positions_exist categories samples Hs) as [ks Hks].
  unfold OneHotEncoder.transform, OneHotEncoder.inverse.
  rewrite (transform_to_labels_spec _ categories) by done. cbn.
  rewrite (label_of_positions _ ks) by done.
  rewrite (encode_positions _ _ _ _ Hfit Hks). cbn.
  rewrite (decode_positions _ _ _ Hne Hks). cbn.
  exact (inverse_from_positions _ _ _ _ Hfit Hks).
Qed.

Lemma Forall_true_fmap {A} (f : A → bool) (l : list A) :
  (∀ x, x ∈ l → f x = true) → Forall (λ b, b = true) (f <$> l).
Proof. intros Hf. apply Forall_fmap, Forall_forall. exact Hf. Qed.

(** A mask computed entry by entry selects everything when every entry
    passes the test. *)
Ltac mask_selects_all :=
  rewrite ?Forall_fmap; apply Forall_forall; intros; cbn;
  repeat case_bool_decide; simplify_eq; try done; try lia.

Lemma NanHot_round_trip self categories (samples : list (option V)) :
  OneHotEncoder._categories self = Some categories →
  NoDup categories → categories ≠ [] →
  (∀ o, o ∈ samples → ∃ v, o = Some v ∧ v ∈ categories) →
  NanHotEncoder.transform self samples
    ≫= (λ df, NanHotEncoder.inverse self (pd.values df)) = Ok samples.
Proof.
  intros Hfit Hnd Hne Hs.
  destruct (present_samples (.∈ categories) samples Hs) as (vs & -> & Hvs).
  destruct (positions_exist categories vs Hvs) as [ks Hks].
  assert (length ks = length vs) as Hlen by by eapply Forall2_length.
  unfold NanHotEncoder.transform, NanHotEncoder.inverse,
    NanHotEncoder.transform_to_labels, NanHotEncoder.transform_from_labels,
    NanHotEncoder.inverse_to_labels, NanHotEncoder.inverse_from_labels,
    OneHotEncoder.n_categories, OneHotEncoder.categories.
  rewrite Hfit. cbn.
  rewrite <-!list_fmap_compose.
  assert (Forall (λ b, b = true)
            ((negb ∘ (λ s, match s with
                           | Some v => negb (bool_decide (v ∈ categories))
                           | None => true
                           end) ∘ Some) <$> vs)) as Hmask.
  { apply Forall_true_fmap. intros v Hv. cbn.
    by rewrite bool_decide_true by by apply Hvs. }
  rewrite compress_all by (by rewrite ?length_fmap).
  rewrite omap_id_Some.
  rewrite (transform_to_labels_spec _ categories) by done. cbn.
  rewrite (label_of_positions _ ks) by done.
  rewrite mask_assign_all by (by rewrite ?length_fmap).
  cbn. rewrite omap_id_Some.
  rewrite (encode_positions _ _ _ _ Hfit Hks). cbn.
  rewrite mask_assign_all; [|mask_selects_all|by rewrite !length_fmap..].
  cbn. rewrite (decode_positions _ _ _ Hne Hks). cbn.
  rewrite omap_id_Some.
  rewrite (inverse_from_positions _ _ _ _ Hfit Hks). cbn.
  f_equal. apply scatter_all; [mask_selects_all|rewrite !length_fmap; lia..].
Qed.

Lemma recode_position categories k (v : V) :
  NoDup categories → categories !! k = Some v →
  pd.recode categories (Some v) = Z.of_nat k.
Proof.
  intros Hnd Hk. unfold pd.recode.
  destruct (list_find (λ c, c = v) categories) as [[i c]|] eqn:Hfind.
  - apply list_find_Some in Hfind as (Hi & -> & _).
    by rewrite (NoDup_lookup _ _ _ _ Hnd Hi Hk).
  - apply list_find_None in Hfind.
    by destruct (Forall_lookup_1 _ _ _ _ Hfind Hk).
Qed.

Lemma cat_value_position categories k (v : V) :
  categories !! k = Some v → pd.cat_value categories (Z.of_nat k) = Some v.
Proof.
  intros Hk. unfold pd.cat_value. rewrite bool_decide_false by lia.
  by rewrite Nat2Z.id.
Qed.

Lemma CatHot_round_trip self categories (samples : pd.Categorical V) :
  OneHotEncoder._categories self = Some categories →
  NoDup categories → categories ≠ [] →
  (∀ o, o ∈ pd.cat_values samples → ∃ v, o = Some v ∧ v ∈ categories) →
  ∃ inverted,
    CatHotEncoder.transform self samples
      ≫= (λ df, CatHotEncoder.inverse self (pd.values df)) = Ok inverted ∧
    pd.cat_values inverted = pd.cat_values samples.
Proof.
  intros Hfit Hnd Hne Hs.
  destruct (present_samples (.∈ categories) _ Hs) as (vs & Hvalues & Hvs).
  destruct (positions_exist categories vs Hvs) as [ks Hks].
  assert (length ks = length vs) as Hlen by by eapply Forall2_length.
  assert (pd.recode categories <$> (Some <$> vs) = Z.of_nat <$> ks) as Hcodes.
  { clear Hvalues Hlen Hvs. induction Hks as [|k v ks vs Hk _ IH]; [done|].
    rewrite !fmap_cons, IH. by rewrite (recode_position _ k v). }
  exists {| pd.cat_categories := categories; pd.cat_codes := Z.of_nat <$> ks |}.
  split.
  - unfold CatHotEncoder.transform, CatHotEncoder.inverse,
      CatHotEncoder.transform_from_labels, CatHotEncoder.inverse_to_labels,
      pd.cat_set_categories, pd.from_codes,
      OneHotEncoder.n_categories, OneHotEncoder.categories.
    rewrite Hfit. cbn. rewrite bool_decide_true by done. cbn.
    rewrite Hvalues, Hcodes.
    rewrite compress_all; [|mask_selects_all|by rewrite !length_fmap].
    rewrite (encode_positions _ _ _ _ Hfit Hks). cbn.
    rewrite mask_assign_all; [|mask_selects_all|by rewrite !length_fmap..].
    cbn. rewrite (decode_positions _ _ _ Hne Hks). cbn.
    rewrite bool_decide_true; [done|].
    apply Forall_fmap. eapply Forall_impl; [by eapply positions_bounded|].
    intros k Hk. unfold compose. cbv beta in Hk. lia.
  - rewrite Hvalues. unfold pd.cat_values. cbn. clear Hvalues Hcodes Hlen Hvs.
    induction Hks as [|k v ks vs Hk _ IH]; [done|].
    rewrite !fmap_cons, IH. by rewrite (cat_value_position _ k v).
Qed.

End round_trip.

(** ** The claims about the encoders *)

Section encoder_claims.
Context {V : Type} `{EqDecision V} (V_le : relation V) `{!RelDecision V_le}.
Implicit Types (self : OneHotEncoder.t V).

Lemma categories_fitted self categories :
  OneHotEncoder.categories self = Ok categories →
  OneHotEncoder._categories self = Some categories.
Proof.
  unfold OneHotEncoder.categories.
  destruct (OneHotEncoder._categories self); by intros [= ->].
Qed.

(** C1 (amended): for an encoder of any of the three classes that [fit] has
    given at least one category, and for samples that all belong to the
    category set and none of which is missing, [inverse(transform(samples))]
    returns the samples: the list itself for [OneHotEncoder] and
    [NanHotEncoder], a categorical series with the same entries for
    [CatHotEncoder]. *)
Theorem round_trip_of_known_samples :
  (∀ self (train samples : list V) categories,
     let enc := OneHotEncoder.fit V_le self train in
     OneHotEncoder.categories enc = Ok categories → categories ≠ [] →
     (∀ s, s ∈ samples → s ∈ categories) →
     OneHotEncoder.transform enc samples ≫= OneHotEncoder.inverse enc = Ok samples) ∧
  (∀ self (train samples : list (option V)) categories,
     let enc := NanHotEncoder.fit V_le self train in
     OneHotEncoder.categories enc = Ok categories → categories ≠ [] →
     (∀ o, o ∈ samples → ∃ v, o = Some v ∧ v ∈ categories) →
     NanHotEncoder.transform enc samples
       ≫= (λ df, NanHotEncoder.inverse enc (pd.values df)) = Ok samples) ∧
  (∀ self (train samples : pd.Categorical V) categories,
     let enc := CatHotEncoder.fit V_le self train in
     OneHotEncoder.categories enc = Ok categories → categories ≠ [] →
     (∀ o, o ∈ pd.cat_values samples → ∃ v, o = Some v ∧ v ∈ categories) →
     ∃ inverted,
       CatHotEncoder.transform enc samples
         ≫= (λ df, CatHotEncoder.inverse enc (pd.values df)) = Ok inverted ∧
       pd.cat_values inverted = pd.cat_values samples).
Proof.
  split_and!; intros self train samples categories enc Hcat Hne Hs;
    apply categories_fitted in Hcat;
    assert (NoDup categories) as Hnd
      by (cbn in Hcat; simplify_eq; apply np_unique_NoDup).
  - by apply (OneHot_round_trip enc categories).
  - by apply (NanHot_round_trip enc categories).
  - by apply (CatHot_round_trip enc categories).
Qed.

(** C9: on an encoder of any of the three classes that has not been fitted,
    [categories] and [n_categories] raise the ProgrammingError "Encoder not
    fitted!"; after [fit] both return, [n_categories] the length of
    [categories]. *)
Theorem accessors_need_fit :
  (∀ self, OneHotEncoder._categories self = None →
     OneHotEncoder.categories self = Raise (ProgrammingError "Encoder not fitted!") ∧
     OneHotEncoder.n_categories self = Raise (ProgrammingError "Encoder not fitted!")) ∧
  OneHotEncoder._categories (OneHotEncoder.__init__ (V:=V)) = None ∧
  OneHotEncoder._categories (NanHotEncoder.__init__ (V:=V)) = None ∧
  OneHotEncoder._categories (CatHotEncoder.__init__ (V:=V)) = None ∧
  (∀ self fitted,
     (∃ samples, fitted = OneHotEncoder.fit V_le self samples) ∨
     (∃ samples, fitted = NanHotEncoder.fit V_le self samples) ∨
     (∃ samples, fitted = CatHotEncoder.fit V_le self samples) →
     ∃ categories,
       OneHotEncoder.categories fitted = Ok categories ∧
       OneHotEncoder.n_categories fitted = Ok (length categories)).
Proof.
  split_and!; try done.
  - intros self Hnone. unfold OneHotEncoder.n_categories, OneHotEncoder.categories.
    by rewrite Hnone.
  - intros self fitted [[samples ->]|[[samples ->]|[samples ->]]]; by eexists.
Qed.

(** C5: on a fitted [OneHotEncoder], [transform_to_labels] returns one label
    per sample and the label [0] for every sample outside the category set;
    [inverse_to_labels] returns the label [0] for every all-zero row of an
    array whose rows have at least one entry.  Neither raises. *)
Theorem base_encoder_defaults_to_label_zero :
  (∀ self categories (samples : list V),
     OneHotEncoder.categories self = Ok categories →
     ∃ labels,
       OneHotEncoder.transform_to_labels self samples = Ok labels ∧
       length labels = length samples ∧
       ∀ i s, samples !! i = Some s → s ∉ categories → labels !! i = Some 0) ∧
  (∀ encoded,
     np.n_cols encoded ≠ 0%nat →
     ∃ labels,
       OneHotEncoder.inverse_to_labels encoded = Ok labels ∧
       length labels = length (np.rows encoded) ∧
       ∀ i row, np.rows encoded !! i = Some row → Forall (λ x, x = 0) row →
                labels !! i = Some 0).
Proof.
  split.
  - intros self categories samples Hfit%categories_fitted.
    exists (label_of categories <$> samples). split_and!.
    + by apply transform_to_labels_spec.
    + by rewrite length_fmap.
    + intros i s Hi Hs. rewrite list_lookup_fmap, Hi. cbn.
      by rewrite label_of_absent.
  - intros encoded Hcols. eexists. split_and!.
    + unfold OneHotEncoder.inverse_to_labels, np.argmax.
      by rewrite bool_decide_false.
    + by rewrite length_fmap.
    + intros i row Hi Hrow. rewrite list_lookup_fmap, Hi. cbn.
      by rewrite argmax_row_zeros.
Qed.

(** C10: [inverse_to_labels] gives every row the first position that holds
    the row's maximum, so a row in which several entries are maximal gets the
    smallest of their positions; [inverse] of a fitted [OneHotEncoder] then
    returns the category at that position and does not raise. *)
Theorem inverse_takes_first_maximum :
  (∀ encoded,
     np.wf_matrix encoded → np.n_cols encoded ≠ 0%nat →
     ∃ labels,
       OneHotEncoder.inverse_to_labels encoded = Ok labels ∧
       Forall2 (λ row l, ∃ i, l = Z.of_nat i ∧ is_first_max row i)
         (np.rows encoded) labels) ∧
  (∀ self categories encoded,
     OneHotEncoder.categories self = Ok categories →
     np.wf_matrix encoded → np.n_cols encoded = length categories →
     np.n_cols encoded ≠ 0%nat →
     ∃ inverted : list V,
       OneHotEncoder.inverse self encoded = Ok inverted ∧
       Forall2 (λ row c, ∃ i, is_first_max row i ∧ categories !! i = Some c)
         (np.rows encoded) inverted).
Proof.
  assert (∀ encoded, np.wf_matrix encoded → np.n_cols encoded ≠ 0%nat →
            Forall (λ row, is_first_max row (np.argmax_row row)) (np.rows encoded))
    as Hmax.
  { intros encoded Hwf Hcols. eapply Forall_impl; [exact Hwf|].
    intros row Hlen. apply argmax_row_first_max. intros ->. cbn in Hlen. lia. }
  split.
  - intros encoded Hwf Hcols. eexists. split.
    + unfold OneHotEncoder.inverse_to_labels, np.argmax.
      by rewrite bool_decide_false.
    + apply Forall2_fmap_r, Forall_Forall2_diag.
      eapply Forall_impl; [by apply Hmax|]. intros row Hrow. by eexists.
  - intros self categories encoded Hfit%categories_fitted Hwf Hlen Hcols.
    specialize (Hmax encoded Hwf Hcols).
    unfold OneHotEncoder.inverse, OneHotEncoder.inverse_to_labels, np.argmax,
      OneHotEncoder.inverse_from_labels, OneHotEncoder.categories.
    rewrite bool_decide_false, Hfit by done. cbn.
    unfold np.wf_matrix in Hwf. rewrite Hlen in Hwf. clear Hlen Hcols Hfit.
    induction Hmax as [|row rows Hrow _ IH]; [by exists []|].
    apply Forall_cons in Hwf as [Hwidth Hwf].
    destruct (IH Hwf) as (inverted & Htake & Hall).
    destruct Hrow as (m & Hm & Hrow).
    destruct (lookup_lt_is_Some_2 categories (np.argmax_row row)) as [c Hc].
    { rewrite <-Hwidth. by eapply lookup_lt_Some. }
    exists (c :: inverted). split.
    + cbn. rewrite (getitem_nat _ _ _ Hc). cbn.
      unfold np.take in Htake. by rewrite Htake.
    + constructor; [|done]. exists (np.argmax_row row). split; [|done]. by exists m.
Qed.

End encoder_claims.

(** ** One-hot rows *)

(** Every row sums to 0 or to 1. *)
Definition one_hot_rows (m : np.matrix) : Prop :=
  Forall (λ row, np.sum_row row = 0 ∨ np.sum_row row = 1) (np.rows m).

(** Success of a call, whatever it returns. *)
Definition returns {A} (r : result A) : Prop := ∃ a, r = Ok a.

Lemma count_true_cons b mask :
  count_true (b :: mask) = if b then S (count_true mask) else count_true mask.
Proof.
  unfold count_true. destruct b.
  - by rewrite filter_cons_True.
  - by rewrite filter_cons_False.
Qed.

Lemma compress_length {A} (mask : list bool) (a : list A) :
  length mask = length a → length (np.compress mask a) = count_true mask.
Proof.
  revert a. induction mask as [|b mask IH]; intros [|x a] Hlen; simplify_eq/=;
    [done|].
  rewrite count_true_cons. destruct b; cbn; rewrite IH; done.
Qed.

Lemma mask_assign_returns {A} shape mask (values : list A) init :
  length mask = shape → length values = count_true mask →
  returns (_mask_assign shape mask values init).
Proof.
  intros Hmask Hvalues. unfold _mask_assign.
  rewrite !bool_decide_true by done. by eexists.
Qed.

Lemma traverse_returns {A B} (f : A → result B) (l : list A) :
  Forall (λ x, returns (f x)) l → returns (traverse f l).
Proof.
  induction 1 as [|x l [y Hy] _ [ys IH]]; [by eexists|].
  cbn. rewrite Hy, IH. by eexists.
Qed.

Lemma getitem_returns {A} (a : list A) (k : Z) :
  0 ≤ k < Z.of_nat (length a) → returns (np.getitem a k).
Proof.
  intros Hk. destruct (lookup_lt_is_Some_2 a (Z.to_nat k)) as [x Hx]; [lia|].
  exists x. rewrite <-(Z2Nat.id k) by lia. by apply getitem_nat.
Qed.

Lemma nonzero_from_bound j0 row j :
  j ∈ np.nonzero_from j0 row → (j0 ≤ j < j0 + length row)%nat.
Proof.
  revert j0. induction row as [|b row IH]; intros j0; cbn.
  { by intros ?%elem_of_nil. }
  intros [Hj|Hj%IH]%elem_of_app; [|lia].
  destruct b; [|by apply elem_of_nil in Hj].
  apply list_elem_of_singleton in Hj as ->. lia.
Qed.

Section one_hot.
Context {V : Type} `{EqDecision V}.
Implicit Types (self : OneHotEncoder.t V) (categories : list V).

Lemma label_of_bound categories (s : V) :
  0 ≤ label_of categories s < Z.max 1 (Z.of_nat (length categories)).
Proof.
  unfold label_of, row_label.
  destruct (last _) as [j|] eqn:Hlast; [|lia].
  apply last_Some_elem_of, nonzero_from_bound in Hlast.
  unfold eq_row in Hlast. rewrite length_fmap in Hlast. lia.
Qed.

Lemma eye_rows_one_hot n rows :
  Forall (λ row, ∃ i, (i < n)%nat ∧ row = np.eye_row n i) rows →
  Forall (λ row, np.sum_row row = 0 ∨ np.sum_row row = 1) rows.
Proof.
  intros Hrows. eapply Forall_impl; [exact Hrows|].
  intros row (i & Hi & ->). right. by apply sum_eye_row.
Qed.

Lemma OneHot_rows self labels m :
  OneHotEncoder.transform_from_labels self labels = Ok m → one_hot_rows m.
Proof.
  intros Hm%transform_from_labels_rows. by eapply eye_rows_one_hot.
Qed.

Lemma OneHot_returns self categories labels :
  OneHotEncoder._categories self = Some categories →
  Forall (λ l, 0 ≤ l < Z.of_nat (length categories)) labels →
  ∃ rows, OneHotEncoder.transform_from_labels self labels
          = Ok (np.Matrix (length categories) rows) ∧
          length rows = length labels.
Proof.
  intros Hfit Hlabels.
  unfold OneHotEncoder.transform_from_labels, OneHotEncoder.n_categories,
    OneHotEncoder.categories.
  rewrite Hfit. cbn.
  destruct (traverse_returns (np.getitem (np.eye (length categories))) labels)
    as [rows Hrows].
  { eapply Forall_impl; [exact Hlabels|]. intros l Hl. apply getitem_returns.
    unfold np.eye. by rewrite length_fmap, length_seq. }
  unfold np.take. rewrite Hrows. cbn. exists rows. split; [done|].
  by eapply traverse_length.
Qed.

(** What a masked encoder assembles from the rows of the base encoder and
    all-zero rows. *)
Lemma masked_rows self (labels : list Z) mask m n shape rows :
  OneHotEncoder.transform_from_labels self labels = Ok m →
  _mask_assign shape mask (np.rows m) (replicate n 0) = Ok rows →
  one_hot_rows (np.Matrix n rows).
Proof.
  intros Hm%OneHot_rows Hrows. unfold one_hot_rows. cbn.
  eapply mask_assign_Forall; [exact Hrows|exact Hm|].
  left. apply sum_zero_row.
Qed.

Lemma NanHot_rows self labels df :
  NanHotEncoder.transform_from_labels self labels = Ok df →
  one_hot_rows (pd.values df).
Proof.
  unfold NanHotEncoder.transform_from_labels.
  destruct (OneHotEncoder.transform_from_labels _ _) as [m|] eqn:Hm; cbn; [|done].
  destruct (OneHotEncoder.n_categories self) as [n|]; cbn; [|done].
  destruct (_mask_assign _ _ _ _) as [rows|] eqn:Hrows; cbn; [|done].
  destruct (OneHotEncoder.categories self); cbn; [|done].
  intros [= <-]. cbn. by eapply masked_rows.
Qed.

Lemma CatHot_rows self labels df :
  CatHotEncoder.transform_from_labels self labels = Ok df →
  one_hot_rows (pd.values df).
Proof.
  unfold CatHotEncoder.transform_from_labels.
  destruct (OneHotEncoder.transform_from_labels _ _) as [m|] eqn:Hm; cbn; [|done].
  destruct (OneHotEncoder.n_categories self) as [n|]; cbn; [|done].
  destruct (_mask_assign _ _ _ _) as [rows|] eqn:Hrows; cbn; [|done].
  destruct (OneHotEncoder.categories self); cbn; [|done].
  intros [= <-]. cbn. by eapply masked_rows.
Qed.

(** Labels a masked encoder accepts: a label of the category set, or the
    sentinel of the class. *)
Definition nan_label (n : nat) (l : option Z) : Prop :=
  match l with None => True | Some l => 0 ≤ l < Z.of_nat n end.

Definition cat_label (n : nat) (l : Z) : Prop := -1 ≤ l < Z.of_nat n.

Lemma NanHot_returns self categories labels :
  OneHotEncoder._categories self = Some categories →
  Forall (nan_label (length categories)) labels →
  returns (NanHotEncoder.transform_from_labels self labels).
Proof.
  intros Hfit Hlabels. unfold NanHotEncoder.transform_from_labels.
  destruct (OneHot_returns self categories (omap id labels) Hfit)
    as (rows & -> & Hlen).
  { clear Hfit. induction Hlabels as [|[l|] labels Hl _ IH]; cbn; auto. }
  unfold OneHotEncoder.n_categories, OneHotEncoder.categories.
  rewrite Hfit. cbn.
  destruct (mask_assign_returns (length labels)
              (negb <$> ((λ l, bool_decide (l = None)) <$> labels)) rows
              (replicate (length categories) 0)) as [encoded ->].
  - by rewrite !length_fmap.
  - rewrite Hlen. clear. induction labels as [|[l|] labels IH]; [done|..];
      rewrite !fmap_cons, count_true_cons; cbn; by rewrite IH.
  - by eexists.
Qed.

Lemma CatHot_returns self categories labels :
  OneHotEncoder._categories self = Some categories →
  Forall (cat_label (length categories)) labels →
  returns (CatHotEncoder.transform_from_labels self labels).
Proof.
  intros Hfit Hlabels. unfold CatHotEncoder.transform_from_labels.
  set (mask := negb <$> ((λ l, bool_decide (l = -1)) <$> labels)).
  assert (length mask = length labels) as Hmask
    by (unfold mask; by rewrite !length_fmap).
  destruct (OneHot_returns self categories (np.compress mask labels) Hfit)
    as (rows & -> & Hlen).
  { clear Hfit Hmask. subst mask.
    induction Hlabels as [|l labels Hl _ IH]; cbn; [done|].
    unfold cat_label in Hl. case_bool_decide; cbn; [done|].
    constructor; [lia|done]. }
  unfold OneHotEncoder.n_categories, OneHotEncoder.categories.
  rewrite Hfit. cbn.
  destruct (mask_assign_returns (length labels) mask rows
              (replicate (length categories) 0)) as [encoded ->]; [done|..].
  - by rewrite Hlen, compress_length.
  - by eexists.
Qed.

End one_hot.

Section one_hot_transform.
Context {V : Type} `{EqDecision V}.
Implicit Types (self : OneHotEncoder.t V) (categories : list V).

Lemma OneHot_transform_returns self categories (samples : list V) :
  OneHotEncoder._categories self = Some categories →
  (∀ s, s ∈ samples → s ∈ categories) →
  returns (OneHotEncoder.transform self samples).
Proof.
  intros Hfit Hs. unfold OneHotEncoder.transform.
  rewrite (transform_to_labels_spec _ categories) by done. cbn.
  destruct (OneHot_returns self categories (label_of categories <$> samples) Hfit)
    as (rows & -> & _); [|by eexists].
  apply Forall_fmap, Forall_forall. intros s Hin. cbn.
  pose proof (label_of_bound categories s).
  destruct categories; [|cbn in *; lia].
  by apply Hs, elem_of_nil in Hin.
Qed.

(** The mask of [NanHotEncoder.transform_to_labels]. *)
Definition unknown categories (s : option V) : bool :=
  match s with
  | None => true
  | Some v => negb (bool_decide (v ∈ categories))
  end.

Lemma known_samples categories (samples : list (option V)) :
  let known := omap id (np.compress (negb <$> (unknown categories <$> samples)) samples) in
  length known = count_true (negb <$> (unknown categories <$> samples)) ∧
  ∀ v, v ∈ known → v ∈ categories.
Proof.
  induction samples as [|[v|] samples [IHlen IHin]]; cbn.
  - split; [done|]. by intros v ?%elem_of_nil.
  - rewrite count_true_cons. case_bool_decide as Hv; cbn; [|done].
    split; [by rewrite IHlen|].
    intros v' [->|?]%elem_of_cons; auto.
  - by rewrite count_true_cons.
Qed.

Lemma NanHot_transform_returns self categories (samples : list (option V)) :
  OneHotEncoder._categories self = Some categories →
  returns (NanHotEncoder.transform self samples).
Proof.
  intros Hfit. unfold NanHotEncoder.transform, NanHotEncoder.transform_to_labels,
    OneHotEncoder.categories.
  rewrite Hfit. cbn. fold (unknown categories).
  destruct (known_samples categories samples) as [Hlen Hknown].
  cbv zeta in Hlen, Hknown.
  rewrite (transform_to_labels_spec _ categories) by done. cbn.
  destruct (mask_assign_returns (length samples)
              (negb <$> (unknown categories <$> samples))
              (Some <$> (label_of categories <$>
                 omap id (np.compress (negb <$> (unknown categories <$> samples)) samples)))
              None) as [labels Hlabels].
  { by rewrite !length_fmap. }
  { by rewrite !length_fmap. }
  rewrite Hlabels. cbn. apply (NanHot_returns self categories); [done|].
  eapply mask_assign_Forall; [exact Hlabels| |done].
  rewrite !Forall_fmap. apply Forall_forall. intros v Hv%Hknown. cbn.
  pose proof (label_of_bound categories v).
  destruct categories; [by apply elem_of_nil in Hv|cbn in *; lia].
Qed.

Lemma recode_bound categories (o : option V) :
  cat_label (length categories) (pd.recode categories o).
Proof.
  unfold cat_label, pd.recode. destruct o as [v|]; [|lia].
  destruct (list_find _ _) as [[i c]|] eqn:Hfind; [|lia].
  apply list_find_Some in Hfind as [Hi%lookup_lt_Some _]. lia.
Qed.

Lemma CatHot_transform_returns self categories (samples : pd.Categorical V) :
  OneHotEncoder._categories self = Some categories → NoDup categories →
  returns (CatHotEncoder.transform self samples).
Proof.
  intros Hfit Hnd. unfold CatHotEncoder.transform, pd.cat_set_categories,
    OneHotEncoder.categories.
  rewrite Hfit. cbn. rewrite bool_decide_true by done. cbn.
  apply (CatHot_returns self categories); [done|].
  apply Forall_fmap, Forall_forall. intros o _. apply recode_bound.
Qed.

(** C7: whatever matrix [transform_from_labels] or [transform] of any of the
    three classes returns, each of its rows sums to 0 or to 1; and on a
    fitted encoder the calls do return for valid input, that is for labels
    of the category set (or the sentinel of the class) and for samples of the
    base encoder that belong to the category set, of the masked encoders
    whatever they are. *)
Theorem one_hot_rows_sum_to_zero_or_one :
  (∀ self labels m,
     OneHotEncoder.transform_from_labels self labels = Ok m → one_hot_rows m) ∧
  (∀ self (samples : list V) m,
     OneHotEncoder.transform self samples = Ok m → one_hot_rows m) ∧
  (∀ self labels df,
     NanHotEncoder.transform_from_labels self labels = Ok df →
     one_hot_rows (pd.values df)) ∧
  (∀ self samples df,
     NanHotEncoder.transform self samples = Ok df → one_hot_rows (pd.values df)) ∧
  (∀ self labels df,
     CatHotEncoder.transform_from_labels self labels = Ok df →
     one_hot_rows (pd.values df)) ∧
  (∀ self samples df,
     CatHotEncoder.transform self samples = Ok df → one_hot_rows (pd.values df)) ∧
  (∀ self categories,
     OneHotEncoder.categories self = Ok categories →
     (∀ labels, Forall (λ l, 0 ≤ l < Z.of_nat (length categories)) labels →
                returns (OneHotEncoder.transform_from_labels self labels)) ∧
     (∀ samples : list V, (∀ s, s ∈ samples → s ∈ categories) →
                returns (OneHotEncoder.transform self samples)) ∧
     (∀ labels, Forall (nan_label (length categories)) labels →
                returns (NanHotEncoder.transform_from_labels self labels)) ∧
     (∀ samples, returns (NanHotEncoder.transform self samples)) ∧
     (∀ labels, Forall (cat_label (length categories)) labels →
                returns (CatHotEncoder.transform_from_labels self labels)) ∧
     (∀ samples, NoDup categories →
                returns (CatHotEncoder.transform self samples))).
Proof.
  split_and!.
  - apply OneHot_rows.
  - intros self samples m. unfold OneHotEncoder.transform.
    destruct (OneHotEncoder.transform_to_labels self samples); cbn; [|done].
    apply OneHot_rows.
  - apply NanHot_rows.
  - intros self samples df. unfold NanHotEncoder.transform.
    destruct (NanHotEncoder.transform_to_labels self samples); cbn; [|done].
    apply NanHot_rows.
  - apply CatHot_rows.
  - intros self samples df. unfold CatHotEncoder.transform.
    destruct (OneHotEncoder.categories self); cbn; [|done].
    destruct (pd.cat_set_categories _ _); cbn; [|done].
    apply CatHot_rows.
  - intros self categories Hfit%categories_fitted. split_and!.
    + intros labels Hlabels.
      destruct (OneHot_returns self categories labels Hfit Hlabels) as (rows & -> & _).
      by eexists.
    + intros samples. by apply OneHot_transform_returns.
    + intros labels. by apply NanHot_returns.
    + intros samples. by apply (NanHot_transform_returns self categories).
    + intros labels. by apply CatHot_returns.
    + intros samples Hnd. by apply (CatHot_transform_returns self categories).
Qed.

End one_hot_transform.

(** ** All-zero rows in the masked encoders *)

Lemma count_true_none k : count_true (replicate k false) = 0%nat.
Proof. induction k as [|k IH]; [done|]. cbn. by rewrite count_true_cons. Qed.

Lemma compress_none {A} k (a : list A) : np.compress (replicate k false) a = [].
Proof. revert a. induction k as [|k IH]; intros [|x a]; cbn; auto. Qed.

Lemma scatter_none {A} k (x : A) :
  scatter (replicate k x) (replicate k false) [] = replicate k x.
Proof. induction k as [|k IH]; [done|]. cbn. by rewrite IH. Qed.

Lemma mask_assign_none {A} k (init : A) :
  _mask_assign k (replicate k false) [] init = Ok (replicate k init).
Proof.
  unfold _mask_assign. rewrite length_replicate, count_true_none.
  rewrite !bool_decide_true by done. by rewrite scatter_none.
Qed.

Lemma omap_id_none {A} k : omap id (replicate k (@None A)) = [].
Proof. induction k as [|k IH]; [done|]. cbn. by rewrite IH. Qed.

Lemma argmax_zero_rows n k :
  n ≠ 0%nat →
  np.argmax (np.Matrix n (replicate k (replicate n 0))) = Ok (replicate k 0).
Proof.
  intros Hn. unfold np.argmax. cbn. rewrite bool_decide_false by done.
  rewrite fmap_replicate, argmax_row_zeros; [done|]. by apply Forall_replicate.
Qed.

Lemma take_first {A} (x : A) (a : list A) k :
  np.take (x :: a) (replicate k 0) = Ok (replicate k x).
Proof. unfold np.take. induction k as [|k IH]; [done|]. cbn. by rewrite IH. Qed.

Section zero_rows.
Context {V : Type} `{EqDecision V}.
Implicit Types (self : OneHotEncoder.t V).

(** C2, on the code: fitted on a category set that starts with [first],
    [NanHotEncoder.transform] turns [k] missing entries into [k] all-zero
    rows; [NanHotEncoder.inverse] turns [k] all-zero rows into [k] times the
    category [first], not into [k] missing entries.  The method that returns
    the missing label for such rows is [inverse_to_lables], which [inverse]
    does not call. *)
Theorem NanHot_inverse_of_zero_rows self (first : V) (rest : list V) (k : nat) :
  OneHotEncoder.categories self = Ok (first :: rest) →
  let n := S (length rest) in
  let zeros := np.Matrix n (replicate k (replicate n 0)) in
  NanHotEncoder.transform self (replicate k None)
    = Ok {| pd.values := zeros; pd.columns := first :: rest |} ∧
  NanHotEncoder.inverse self zeros = Ok (replicate k (Some first)) ∧
  NanHotEncoder.inverse_to_lables zeros = Ok (replicate k None).
Proof.
  intros Hfit%categories_fitted n zeros.
  assert (n ≠ 0%nat) as Hn by done.
  assert (S (length rest) = n) as Hlen by done.
  subst zeros. clearbody n. split_and!.
  - unfold NanHotEncoder.transform, NanHotEncoder.transform_to_labels,
      NanHotEncoder.transform_from_labels, OneHotEncoder.transform_to_labels,
      OneHotEncoder.transform_from_labels, OneHotEncoder.n_categories,
      OneHotEncoder.categories.
    rewrite Hfit. cbn. rewrite Hlen, !fmap_replicate. cbn.
    rewrite compress_none, length_replicate. cbn.
    rewrite mask_assign_none. cbn.
    rewrite !fmap_replicate, omap_id_none, length_replicate. cbn.
    rewrite mask_assign_none. by subst n.
  - unfold NanHotEncoder.inverse, NanHotEncoder.inverse_to_labels,
      OneHotEncoder.inverse_to_labels, NanHotEncoder.inverse_from_labels,
      OneHotEncoder.inverse_from_labels, OneHotEncoder.categories.
    rewrite argmax_zero_rows by done. cbn.
    rewrite Hfit, omap_id_Some. cbn. rewrite take_first. cbn.
    rewrite !fmap_replicate. f_equal.
    apply scatter_all; rewrite ?length_replicate; [|done..].
    by apply Forall_replicate.
  - unfold NanHotEncoder.inverse_to_lables, OneHotEncoder.inverse_to_labels, np.argmax.
    cbn. rewrite !fmap_replicate, sum_zero_row.
    rewrite (bool_decide_false (n = 0%nat)), (bool_decide_true (0 = 0)) by done.
    cbn.
    rewrite compress_none, length_replicate. cbn. apply mask_assign_none.
Qed.

(** C6, on the code: on all-zero rows [CatHotEncoder.inverse_to_labels] is
    the inherited argmax and returns the code [0], so the code [-1], which
    [transform_from_labels] encodes as an all-zero row, comes back as [0];
    [inverse] returns the first category for it.  The method that returns
    [-1] for such rows is [inverse_to_lables], which nothing calls. *)
Theorem CatHot_inverse_of_zero_rows self (first : V) (rest : list V) (k : nat) :
  OneHotEncoder.categories self = Ok (first :: rest) →
  let n := S (length rest) in
  let zeros := np.Matrix n (replicate k (replicate n 0)) in
  CatHotEncoder.transform_from_labels self (replicate k (-1))
    = Ok {| pd.values := zeros; pd.columns := first :: rest |} ∧
  CatHotEncoder.inverse_to_labels zeros = Ok (replicate k 0) ∧
  CatHotEncoder.inverse_to_lables zeros = Ok (replicate k (-1)) ∧
  (NoDup (first :: rest) →
   ∃ inverted, CatHotEncoder.inverse self zeros = Ok inverted ∧
               pd.cat_values inverted = replicate k (Some first)).
Proof.
  intros Hfit%categories_fitted n zeros.
  assert (n ≠ 0%nat) as Hn by done.
  assert (S (length rest) = n) as Hlen by done.
  subst zeros. clearbody n. split_and!.
  - unfold CatHotEncoder.transform_from_labels, OneHotEncoder.transform_from_labels,
      OneHotEncoder.n_categories, OneHotEncoder.categories.
    rewrite Hfit. cbn. rewrite Hlen, !fmap_replicate. cbn.
    rewrite compress_none, length_replicate. cbn.
    rewrite mask_assign_none. by subst n.
  - by apply argmax_zero_rows.
  - unfold CatHotEncoder.inverse_to_lables, OneHotEncoder.inverse_to_labels, np.argmax.
    cbn. rewrite !fmap_replicate, sum_zero_row.
    rewrite (bool_decide_false (n = 0%nat)), (bool_decide_true (0 = 0)) by done.
    cbn.
    rewrite compress_none, length_replicate. cbn. apply mask_assign_none.
  - intros Hnd. eexists. split.
    + unfold CatHotEncoder.inverse, CatHotEncoder.inverse_to_labels,
        OneHotEncoder.inverse_to_labels, OneHotEncoder.categories, pd.from_codes.
      rewrite argmax_zero_rows by done. cbn. rewrite Hfit. cbn.
      rewrite bool_decide_true by done.
      rewrite bool_decide_true; [done|].
      apply Forall_replicate. cbn. lia.
    + unfold pd.cat_values. cbn. by rewrite fmap_replicate.
Qed.

End zero_rows.

(** ** The encoder theorems on the encoders of the docstrings *)

Local Open Scope string_scope.

Lemma round_trip_of_known_samples_witness :
  OneHotEncoder.transform doctest.oh ["a"; "c"; "d"; "a"]
    ≫= OneHotEncoder.inverse doctest.oh = Ok ["a"; "c"; "d"; "a"] ∧
  NanHotEncoder.transform doctest.nh [Some "c"; Some "d"; Some "a"]
    ≫= (λ df, NanHotEncoder.inverse doctest.nh (pd.values df))
    = Ok [Some "c"; Some "d"; Some "a"] ∧
  ∃ inverted,
    CatHotEncoder.transform doctest.ch
        {| pd.cat_categories := ["d"; "a"]; pd.cat_codes := [0; 1; 0] |}
      ≫= (λ df, CatHotEncoder.inverse doctest.ch (pd.values df)) = Ok inverted ∧
    pd.cat_values inverted = [Some "d"; Some "a"; Some "d"].
Proof.
  destruct (round_trip_of_known_samples doctest.str_le) as (Hone & Hnan & Hcat).
  split_and!.
  - apply (Hone OneHotEncoder.__init__ ["a"; "b"; "c"; "d"] _ ["a"; "b"; "c"; "d"]);
      [reflexivity|done|].
    intros s Hs. repeat apply elem_of_cons in Hs as [->|Hs];
      [by repeat constructor..|by apply elem_of_nil in Hs].
  - apply (Hnan NanHotEncoder.__init__ [Some "a"; Some "b"; Some "c"; Some "d"]
             _ ["a"; "b"; "c"; "d"]); [reflexivity|done|].
    intros o Ho. repeat apply elem_of_cons in Ho as [->|Ho];
      [eexists; split; [done|by repeat constructor]..|by apply elem_of_nil in Ho].
  - apply (Hcat CatHotEncoder.__init__ doctest.s
             {| pd.cat_categories := ["d"; "a"]; pd.cat_codes := [0; 1; 0] |}
             ["a"; "b"; "c"; "d"]); [reflexivity|done|].
    intros o Ho. repeat apply elem_of_cons in Ho as [->|Ho];
      [eexists; split; [done|by repeat constructor]..|by apply elem_of_nil in Ho].
Defined.

(** C1, as stated, fails for an encoder fitted on no category: the encoding
    of no sample has a last axis of length 0, and [inverse] raises on it.
    The same holds for the two masked encoders. *)
Lemma round_trip_fails_without_categories :
  let fitted_on_nothing := OneHotEncoder.fit doctest.str_le OneHotEncoder.__init__ [] in
  let nan_fitted := NanHotEncoder.fit doctest.str_le NanHotEncoder.__init__ [None] in
  let no_category := {| pd.cat_categories := []; pd.cat_codes := [] |} in
  let cat_fitted := CatHotEncoder.fit doctest.str_le CatHotEncoder.__init__ no_category in
  OneHotEncoder.categories fitted_on_nothing = Ok [] ∧
  OneHotEncoder.transform fitted_on_nothing [] = Ok (np.Matrix 0 []) ∧
  OneHotEncoder.transform fitted_on_nothing []
    ≫= OneHotEncoder.inverse fitted_on_nothing = Raise ValueError ∧
  OneHotEncoder.transform fitted_on_nothing []
    ≫= OneHotEncoder.inverse fitted_on_nothing ≠ Ok [] ∧
  NanHotEncoder.transform nan_fitted []
    ≫= (λ df, NanHotEncoder.inverse nan_fitted (pd.values df)) = Raise ValueError ∧
  CatHotEncoder.transform cat_fitted no_category
    ≫= (λ df, CatHotEncoder.inverse cat_fitted (pd.values df)) = Raise ValueError.
Proof. by split_and!. Qed.

Lemma accessors_need_fit_witness :
  OneHotEncoder.categories (OneHotEncoder.__init__ (V:=string))
    = Raise (ProgrammingError "Encoder not fitted!") ∧
  OneHotEncoder.n_categories (OneHotEncoder.__init__ (V:=string))
    = Raise (ProgrammingError "Encoder not fitted!") ∧
  OneHotEncoder.n_categories doctest.nh = Ok 4%nat.
Proof.
  destruct (accessors_need_fit doctest.str_le) as (Hnone & Hinit & _ & _ & Hfit).
  destruct (Hnone OneHotEncoder.__init__ Hinit) as [Hcat Hn].
  split_and!; [exact Hcat|exact Hn|].
  destruct (Hfit NanHotEncoder.__init__ doctest.nh) as (categories & Hcats & ->).
  { right; left. by eexists. }
  by injection Hcats as <-.
Defined.

Lemma base_encoder_defaults_to_label_zero_witness :
  (∃ labels, OneHotEncoder.transform_to_labels doctest.oh ["c"; "z"] = Ok labels ∧
             labels !! 1%nat = Some 0) ∧
  (∃ labels, OneHotEncoder.inverse_to_labels
               (np.Matrix 4 [[0; 0; 1; 0]; [0; 0; 0; 0]]) = Ok labels ∧
             labels !! 1%nat = Some 0).
Proof.
  destruct (base_encoder_defaults_to_label_zero (V:=string)) as [Hto Hfrom].
  split.
  - destruct (Hto doctest.oh ["a"; "b"; "c"; "d"] ["c"; "z"]) as (labels & Hl & _ & H0);
      [reflexivity|].
    exists labels. split; [done|]. apply (H0 1%nat "z"); [done|].
    intros Hz. repeat apply elem_of_cons in Hz as [?|Hz]; [done..|].
    by apply elem_of_nil in Hz.
  - destruct (Hfrom (np.Matrix 4 [[0; 0; 1; 0]; [0; 0; 0; 0]])) as (labels & Hl & _ & H0);
      [done|].
    exists labels. split; [done|]. apply (H0 1%nat [0; 0; 0; 0]); [done|].
    by repeat constructor.
Defined.

Lemma inverse_takes_first_maximum_witness :
  ∃ inverted,
    OneHotEncoder.inverse doctest.oh (np.Matrix 4 [[0; 1; 0; 1]; [2; 0; 2; 1]])
      = Ok inverted ∧
    Forall2 (λ row c, ∃ i, is_first_max row i ∧ ["a"; "b"; "c"; "d"] !! i = Some c)
      [[0; 1; 0; 1]; [2; 0; 2; 1]] inverted.
Proof.
  destruct (inverse_takes_first_maximum (V:=string)) as [_ Hinv].
  apply (Hinv doctest.oh ["a"; "b"; "c"; "d"]
           (np.Matrix 4 [[0; 1; 0; 1]; [2; 0; 2; 1]])); [reflexivity| |done..].
  by repeat constructor.
Defined.

Lemma one_hot_rows_sum_to_zero_or_one_witness :
  (∃ df, NanHotEncoder.transform doctest.nh [None; Some "c"; Some "z"] = Ok df ∧
         one_hot_rows (pd.values df)) ∧
  (∃ df, CatHotEncoder.transform doctest.ch doctest.s = Ok df ∧
         one_hot_rows (pd.values df)) ∧
  (∃ m, OneHotEncoder.transform doctest.oh ["a"; "c"] = Ok m ∧ one_hot_rows m).
Proof.
  destruct (one_hot_rows_sum_to_zero_or_one (V:=string))
    as (_ & Hone & _ & Hnan & _ & Hcat & Hreturns).
  destruct (Hreturns doctest.oh ["a"; "b"; "c"; "d"]) as (_ & Hr1 & _ & Hr2 & _ & Hr3);
    [reflexivity|].
  split_and!.
  - destruct (Hr2 [None; Some "c"; Some "z"]) as [df Hdf].
    exists df. split; [exact Hdf|]. by eapply Hnan.
  - destruct (Hr3 doctest.s) as [df Hdf]; [by apply (bool_decide_unpack _)|].
    exists df. split; [exact Hdf|]. by eapply Hcat.
  - destruct (Hr1 ["a"; "c"]) as [m Hm].
    { intros s Hs. repeat apply elem_of_cons in Hs as [->|Hs];
        [by repeat constructor..|by apply elem_of_nil in Hs]. }
    exists m. split; [exact Hm|]. by eapply Hone.
Defined.

Lemma NanHot_inverse_of_zero_rows_witness :
  NanHotEncoder.inverse doctest.nh (np.Matrix 4 [[0; 0; 0; 0]; [0; 0; 0; 0]])
    = Ok [Some "a"; Some "a"] ∧
  NanHotEncoder.inverse_to_lables (np.Matrix 4 [[0; 0; 0; 0]; [0; 0; 0; 0]])
    = Ok [None; None].
Proof.
  destruct (NanHot_inverse_of_zero_rows doctest.nh "a" ["b"; "c"; "d"] 2)
    as (_ & Hinv & Hlables); [reflexivity|].
  split; [exact Hinv|exact Hlables].
Defined.

Lemma CatHot_inverse_of_zero_rows_witness :
  CatHotEncoder.transform_from_labels doctest.ch [-1]
    = Ok {| pd.values := np.Matrix 4 [[0; 0; 0; 0]];
            pd.columns := ["a"; "b"; "c"; "d"] |} ∧
  CatHotEncoder.inverse_to_labels (np.Matrix 4 [[0; 0; 0; 0]]) = Ok [0].
Proof.
  destruct (CatHot_inverse_of_zero_rows doctest.ch "a" ["b"; "c"; "d"] 1)
    as (Hfrom & Hto & _); [reflexivity|].
  split; [exact Hfrom|exact Hto].
Defined.

Local Close Scope string_scope.

(** ** The order of binary64 *)

Section float_order.
Import SpecFloat FloatOps FloatAxioms measures.

Lemma SFcompare_refl (a : spec_float) : a ≠ S754_nan → SFcompare a a = Some Eq.
Proof.
  destruct a as [s|s| |s m e]; cbn; try done; intros _.
  - by destruct s.
  - rewrite Z.compare_refl, Pos.compare_cont_refl. by destruct s.
Qed.

(** Every case of two or three floats is settled by the signs and by the
    order of the exponents and of the mantissas. *)
Ltac by_cases ea eb ec ma mb mc :=
  rewrite ?Pos.compare_cont_spec; cbn;
  destruct (Z.compare_spec ea eb), (Z.compare_spec eb ec), (Z.compare_spec ea ec);
  try done; try lia; subst;
  destruct (Pos.compare_spec ma mb), (Pos.compare_spec mb mc), (Pos.compare_spec ma mc);
  cbn; try done; lia.

Lemma SFcompare_Lt_trans (a b c : spec_float) (ab : comparison) :
  SFcompare a b = Some ab → ab ≠ Gt → SFcompare b c = Some Lt →
  SFcompare a c = Some Lt.
Proof.
  destruct a as [sa|sa| |sa ma ea], b as [sb|sb| |sb mb eb], c as [sc|sc| |sc mc ec];
    cbn; try done;
    try destruct sa; try destruct sb; try destruct sc; cbn; try done;
    try (intros [= <-]; done);
    intros [= <-] Hab [= Hbc]; f_equal; revert Hab Hbc;
    by_cases ea eb ec ma mb mc.
Qed.

Lemma SFcompare_Eq_trans (a b c : spec_float) (ab : comparison) :
  SFcompare a b = Some ab → ab ≠ Gt → SFcompare b c = Some Eq →
  SFcompare a c = Some ab.
Proof.
  destruct a as [sa|sa| |sa ma ea], b as [sb|sb| |sb mb eb], c as [sc|sc| |sc mc ec];
    cbn; try done;
    try destruct sa; try destruct sb; try destruct sc; cbn; try done;
    try (intros [= <-]; done);
    intros [= <-] Hab [= Hbc]; f_equal; revert Hab Hbc;
    by_cases ea eb ec ma mb mc.
Qed.

Lemma SFcompare_total (a b : spec_float) :
  a ≠ S754_nan → b ≠ S754_nan →
  ∃ ab, SFcompare a b = Some ab ∧ SFcompare b a = Some (CompOpp ab).
Proof.
  destruct a as [sa|sa| |sa ma ea], b as [sb|sb| |sb mb eb]; cbn; try done;
    intros _ _; try destruct sa; try destruct sb; cbn; eexists; (split; [done|]);
    cbn; try done;
    rewrite ?Pos.compare_cont_spec; cbn;
    rewrite (Z.compare_antisym ea eb), (Pos.compare_antisym ma mb);
    destruct (ea ?= eb), (ma ?= mb)%positive; done.
Qed.

Lemma is_nan_spec (a : float) : is_nan a = true ↔ Prim2SF a = S754_nan.
Proof.
  unfold is_nan. rewrite eqb_spec. unfold SFeqb. split.
  - intros Hnan. destruct (Prim2SF a) as [s|s| |s m e] eqn:Ha; [..|done|];
      by rewrite SFcompare_refl in Hnan.
  - by intros ->.
Qed.

Lemma leb_not_nan (a b : float) :
  (a <=? b)%float = true → Prim2SF a ≠ S754_nan ∧ Prim2SF b ≠ S754_nan.
Proof.
  rewrite leb_spec. unfold SFleb.
  destruct (Prim2SF a), (Prim2SF b); cbn; done.
Qed.

Lemma np_leb_refl (a : float) : np_leb a a = true.
Proof.
  unfold np_leb. destruct (is_nan a) eqn:Hnan; [done|]. cbn.
  rewrite leb_spec. unfold SFleb. rewrite SFcompare_refl; [done|].
  intros Ha%is_nan_spec. congruence.
Qed.

Lemma np_leb_total (a b : float) : np_leb a b = true ∨ np_leb b a = true.
Proof.
  unfold np_leb.
  destruct (is_nan b) eqn:Hb; [by left|]. destruct (is_nan a) eqn:Ha; [by right|].
  cbn. rewrite !leb_spec. unfold SFleb.
  destruct (SFcompare_total (Prim2SF a) (Prim2SF b)) as (ab & -> & ->).
  - intros H%is_nan_spec. congruence.
  - intros H%is_nan_spec. congruence.
  - destruct ab; cbn; auto.
Qed.

Lemma np_leb_trans (a b c : float) :
  np_leb a b = true → np_leb b c = true → np_leb a c = true.
Proof.
  unfold np_leb. destruct (is_nan c) eqn:Hc; [done|]. cbn.
  intros Hab Hbc. pose proof (leb_not_nan _ _ Hbc) as [Hb _].
  destruct (is_nan b) eqn:Hnan; [by apply is_nan_spec in Hnan|]. cbn in Hab.
  revert Hab Hbc. rewrite !leb_spec. unfold SFleb.
  destruct (SFcompare (Prim2SF a) (Prim2SF b)) as [ab|] eqn:Hab; [|done].
  destruct (SFcompare (Prim2SF b) (Prim2SF c)) as [[]|] eqn:Hbc; try done; intros Hle _.
  - rewrite (SFcompare_Eq_trans _ _ _ ab Hab) by (done || by destruct ab).
    by destruct ab.
  - by rewrite (SFcompare_Lt_trans _ _ _ ab Hab) by (done || by destruct ab).
Qed.


End float_order.

(** ** Ranking the units of a map *)

Module ranking.
Import nd measures.

Global Instance key_le_total keys : Total (key_le keys).
Proof. intros i j. apply np_leb_total. Qed.

Global Instance key_le_trans keys : Transitive (key_le keys).
Proof. intros i j k. apply np_leb_trans. Qed.

(** The two units [argsort] ranks first are two different units whose keys
    are the smallest and, among the others, the smallest again, in the order
    of numpy. *)
Definition best_two (keys : list float) (b1 b2 : nat) : Prop :=
  b1 ≠ b2 ∧ (b1 < length keys)%nat ∧ (b2 < length keys)%nat ∧
  (∀ c, (c < length keys)%nat →
        np_leb (nth b1 keys 0%float) (nth c keys 0%float) = true) ∧
  (∀ c, (c < length keys)%nat → c ≠ b1 →
        np_leb (nth b2 keys 0%float) (nth c keys 0%float) = true).

Lemma sorts_best_two np_argsort keys :
  sorts np_argsort → (2 ≤ length keys)%nat →
  best_two keys (nth 0 (np_argsort keys) 0%nat) (nth 1 (np_argsort keys) 0%nat).
Proof.
  intros Hsorts Hlen. destruct (Hsorts keys) as [Hperm Hsorted].
  assert (NoDup (np_argsort keys)) as Hnd by (rewrite Hperm; apply NoDup_seq).
  assert (∀ c, c ∈ np_argsort keys ↔ (c < length keys)%nat) as Hin.
  { intros c. rewrite Hperm, elem_of_seq. lia. }
  pose proof (Permutation_length Hperm) as Hl. rewrite length_seq in Hl.
  destruct (np_argsort keys) as [|b1 [|b2 order]]; cbn in Hl; [lia..|]. cbn.
  apply NoDup_cons in Hnd as [Hb1 Hnd]. apply NoDup_cons in Hnd as [Hb2 _].
  apply StronglySorted_inv in Hsorted as [Hsorted Hfirst].
  apply StronglySorted_inv in Hsorted as [_ Hsecond].
  split_and!.
  - intros ->. apply Hb1. by left.
  - apply Hin. by left.
  - apply Hin. right; by left.
  - intros c [->|Hc]%Hin%elem_of_cons; [apply np_leb_refl|].
    by apply (Forall_forall (key_le keys b1) (b2 :: order)).
  - intros c [->|[->|Hc]%elem_of_cons]%Hin%elem_of_cons Hne; [done|apply np_leb_refl|].
    by apply (Forall_forall (key_le keys b2) order).
Qed.

Lemma argsort_sorts : sorts argsort.
Proof.
  intros keys. split.
  - apply merge_sort_Permutation.
  - apply (StronglySorted_merge_sort (key_le keys)).
Qed.

End ranking.

(** ** The u-matrix *)

Section umatrix_claims.
Import nd measures.

Lemma but_last2_app (map_shape : list nat) (a f : nat) :
  but_last2 (map_shape ++ [a; f]) = map_shape.
Proof.
  unfold but_last2. rewrite length_app. cbn.
  by rewrite take_app_length' by lia.
Qed.

Lemma last2_app (map_shape : list nat) (a f : nat) :
  last2 (map_shape ++ [a; f]) = [a; f].
Proof.
  unfold last2. rewrite length_app. cbn.
  by rewrite drop_app_length' by lia.
Qed.

Lemma umatrix_loop_length weights d map_shape indices distances (visited : list (list nat)) :
  length (foldl (umatrix_step weights d map_shape indices) distances visited)
  = length distances.
Proof.
  revert distances. induction visited as [|i visited IH]; intros distances; [done|].
  cbn. rewrite IH. unfold umatrix_step. by rewrite length_insert.
Qed.

(** C4 (amended): for weights of shape [map_shape + (n_units, n_features)]
    with a [map_shape] of at least one axis, [umatrix] returns an array of
    shape [map_shape], one entry per coordinate; the measures of the module
    assume [n_units = 1]. *)
Theorem umatrix_shape (weights : ndarray float) (d : float)
    (map_shape : list nat) (n_units n_features : nat) :
  shape weights = map_shape ++ [n_units; n_features] → map_shape ≠ [] →
  ∃ u, umatrix weights d = Ok u ∧ shape u = map_shape ∧ wf u.
Proof.
  intros Hshape Hne. unfold umatrix. rewrite Hshape, but_last2_app.
  rewrite bool_decide_false by done.
  eexists. split_and!; [done..|].
  unfold wf. cbn. by rewrite umatrix_loop_length, length_replicate.
Qed.

Lemma umatrix_shape_witness :
  ∃ u, umatrix (NDArray [2; 3; 1; 4]%nat (replicate 24 1%float)) 1 = Ok u ∧
       shape u = [2; 3]%nat ∧ wf u.
Proof. by apply (umatrix_shape _ _ [2; 3]%nat 1 4). Defined.

(** C4, as stated, fails: for weights of shape [map_shape + (n_features,)]
    the last axis of the grid is taken for the axis of the units, so a
    [(2, 3)] grid of four features gives an output of shape [(2,)], and a
    1-d grid makes [umatrix] raise. *)
Lemma umatrix_shape_drops_last_grid_axis :
  let map_shape := [2; 3]%nat in
  let weights := NDArray (map_shape ++ [4]%nat) (replicate 24 1%float) in
  (∃ u, umatrix weights 1 = Ok u ∧ shape u = [2]%nat ∧ shape u ≠ map_shape) ∧
  umatrix (NDArray ([5]%nat ++ [4]%nat) (replicate 20 1%float)) 1 = Raise ValueError.
Proof. split; [|done]. eexists. by split_and!. Qed.

(** C3, on the code: the entry for a coordinate is the norm of all the
    differences to its neighbours taken together, the root of the sum of the
    squared distances, and [np.mean] of that one number changes nothing.  In
    a row of three units with weights (0, 0), (3, 4) and (3, 16) the middle
    unit is at distance 5 and 12 from its neighbours: the entry is 13, not
    the mean 8.5.  For a map of one unit, which has no neighbour whatever
    the radius, the entry is 0, not NaN. *)
Theorem umatrix_is_norm_over_all_neighbours :
  umatrix (NDArray [3; 1; 2]%nat [0; 0; 3; 4; 3; 16]%float) 1
    = Ok (NDArray [3]%nat [5; 13; 12]%float) ∧
  mean [5; 12]%float = 8.5%float ∧
  (∀ (n_features : nat) (data : list float) (d : float),
     umatrix (NDArray [1; 1; n_features]%nat data) d = Ok (NDArray [1]%nat [0]%float)) ∧
  PrimFloat.is_nan (mean []) = true ∧
  PrimFloat.is_nan 0 = false.
Proof.
  split_and!; [by vm_compute..| |by vm_compute|by vm_compute].
  intros n_features data d. reflexivity.
Qed.

End umatrix_claims.

(** ** The topographic error *)

Section counting.
Context {A : Type} (P : A → Prop) `{!∀ x, Decision (P x)}.

Lemma filter_none (l : list A) :
  length (filter P l) = 0%nat ↔ Forall (λ x, ¬ P x) l.
Proof.
  induction l as [|x l IH]; [by split; [constructor|]|].
  destruct (decide (P x)) as [Hx|Hx].
  - rewrite filter_cons_True by done. split; [done|].
    intros [? _]%Forall_cons. done.
  - rewrite filter_cons_False by done. rewrite IH, Forall_cons. tauto.
Qed.

Lemma filter_all (l : list A) :
  length (filter P l) = length l ↔ Forall P l.
Proof.
  induction l as [|x l IH]; [by split; [constructor|]|].
  pose proof (length_filter P l).
  destruct (decide (P x)) as [Hx|Hx].
  - rewrite filter_cons_True by done. cbn. rewrite Forall_cons, <-IH.
    split; [intros [= ?]; by split|intros [_ ->]; done].
  - rewrite filter_cons_False by done. cbn. split; [lia|].
    intros [? _]%Forall_cons. done.
Qed.

End counting.

Lemma sum_indicator {A} (f : A → bool) (l : list A) :
  foldr Z.add 0 ((λ p, if f p then 1 else 0) <$> l)
  = Z.of_nat (length (filter (λ p, f p = true) l)).
Proof.
  induction l as [|x l IH]; [done|]. rewrite fmap_cons. cbn [foldr]. rewrite IH.
  destruct (f x) eqn:Hx.
  - rewrite filter_cons_True by done. cbn [length]. lia.
  - rewrite filter_cons_False by (by rewrite Hx). lia.
Qed.

(** A fraction [c / n] of a count [c ≤ n], as [np.mean] returns it. *)
Lemma fraction_bounds (c n : nat) :
  n ≠ 0%nat → (c ≤ n)%nat →
  let e := (inject_Z (Z.of_nat c) / inject_Z (Z.of_nat n))%Q in
  (0 <= e)%Q ∧ (e <= 1)%Q ∧ ((e == 0)%Q ↔ c = 0%nat) ∧ ((e == 1)%Q ↔ c = n).
Proof.
  intros Hn Hc e. subst e.
  destruct (Z.of_nat n) as [|p|p] eqn:Hp; [lia| |lia].
  unfold Qdiv, Qinv, Qmult, Qle, Qeq, inject_Z. cbn.
  rewrite !Z.mul_1_r. split_and!; [lia|lia|lia|].
  rewrite Z.mul_1_l. lia.
Qed.

Section grid.
Import nd.
Local Open Scope nat_scope.

(** The coordinate [c] of the unit at the flat position [b] of a grid: one
    index below the length of every axis, at position [b] in C order. *)
Definition on_grid (map_shape : list nat) (b : nat) (c : list nat) : Prop :=
  Forall2 lt c map_shape ∧ ravel_multi_index c map_shape = b.

Lemma ravel_lt (c shape : list nat) :
  Forall2 lt c shape → ravel_multi_index c shape < size shape.
Proof.
  induction 1 as [|x n c shape Hx _ IH]; [cbn; lia|].
  change (x * size shape + ravel_multi_index c shape < n * size shape). nia.
Qed.

Lemma unravel_on_grid (shape : list nat) (b : nat) :
  b < size shape → on_grid shape b (unravel_index b shape).
Proof.
  revert b. induction shape as [|n shape IH]; intros b.
  { cbn. intros Hb. split; [constructor|cbn; lia]. }
  change (size (n :: shape)) with (n * size shape). intros Hb.
  assert (size shape ≠ 0) as Hm by (intros Hm; rewrite Hm in Hb; lia).
  destruct (IH (b mod size shape)) as [Hrest Hravel];
    [by apply Nat.mod_upper_bound|].
  split.
  - cbn [unravel_index]. constructor; [|done].
    apply Nat.Div0.div_lt_upper_bound. lia.
  - cbn [unravel_index ravel_multi_index]. rewrite Hravel.
    pose proof (Nat.div_mod_eq b (size shape)). lia.
Qed.

Lemma on_grid_unique (shape : list nat) (b : nat) (c : list nat) :
  on_grid shape b c → c = unravel_index b shape.
Proof.
  intros [Hc <-]. induction Hc as [|x n c shape Hx Hc IH]; [done|].
  pose proof (ravel_lt _ _ Hc) as Hlt.
  cbn [unravel_index ravel_multi_index].
  rewrite Nat.div_add_l, Nat.div_small, Nat.add_0_r by lia.
  rewrite Nat.add_comm, Nat.Div0.mod_add, Nat.mod_small by lia.
  by rewrite <-IH.
Qed.

End grid.

Section topographic_claims.
Import nd measures ranking.
Local Open Scope Z_scope.

(** The weight vector of unit [c] and the sample [s], read from the flat
    data of [weights] and [x]. *)
Definition vector (a : ndarray float) (n_features k : nat) : list float :=
  take n_features (drop (k * n_features) (data a)).

(** The squared distance in binary64 from the sample [s] to every unit of
    the map, in the C order of the units: the sum, as [np_sum] adds it, of
    the rounded squares of the rounded differences. *)
Definition sq_distances (np_sum : list float → float) (weights x : ndarray float)
    (n_units n_features s : nat) : list float :=
  (λ c, np_sum ((λ w_x, let d := (w_x.1 - w_x.2)%float in (d * d)%float)
                  <$> zip (vector weights n_features c) (vector x n_features s)))
    <$> seq 0 n_units.

(** The best and second-best matching unit of every sample, as ranked by
    [np_argsort]. *)
Definition bmu_pairs (np_argsort : list float → list nat) (np_sum : list float → float)
    (weights x : ndarray float) (n_units n_features n_data : nat) : list (nat * nat) :=
  (λ s, let order := np_argsort (sq_distances np_sum weights x n_units n_features s) in
        (nth 0 order 0%nat, nth 1 order 0%nat)) <$> seq 0 n_data.

(** The two units of a pair count as further apart on the grid than the
    radius. *)
Definition separated (map_shape : list nat) (r : float) (p : nat * nat) : Prop :=
  norm_exceeds (unravel_index p.1 map_shape) (unravel_index p.2 map_shape) r = true.

Global Instance separated_dec map_shape r p : Decision (separated map_shape r p).
Proof. unfold separated. apply _. Defined.

(** The squared Euclidean distance of two grid coordinates, an integer. *)
Definition sq_distance (a b : list nat) : Z :=
  foldr Z.add 0 (zip_with (λ x y, (Z.of_nat x - Z.of_nat y) * (Z.of_nat x - Z.of_nat y)) a b).

(** A grid on which no squared distance reaches 2^53, so that binary64
    holds every one exactly. *)
Definition exact_grid (map_shape : list nat) : Prop :=
  foldr (λ n acc, Z.of_nat n * Z.of_nat n + acc) 0 map_shape < 2 ^ 53.

Lemma dot_sq_distance (a b : list nat) :
  foldl (λ acc d, acc + d * d) 0 (zip_with (λ x y, Z.of_nat x - Z.of_nat y) a b)
  = sq_distance a b.
Proof.
  unfold sq_distance.
  enough (∀ acc, foldl (λ acc d, acc + d * d) acc
                   (zip_with (λ x y, Z.of_nat x - Z.of_nat y) a b)
                 = acc + foldr Z.add 0
                     (zip_with (λ x y, (Z.of_nat x - Z.of_nat y) * (Z.of_nat x - Z.of_nat y))
                        a b)) as Hacc by apply Hacc.
  revert b. induction a as [|x a IH]; intros [|y b] acc; cbn; try lia.
  rewrite IH. lia.
Qed.

Lemma sq_distance_bound (map_shape c1 c2 : list nat) :
  Forall2 lt c1 map_shape → Forall2 lt c2 map_shape →
  0 ≤ sq_distance c1 c2
  ≤ foldr (λ n acc, Z.of_nat n * Z.of_nat n + acc) 0 map_shape.
Proof.
  unfold sq_distance. intros Hc1. revert c2.
  induction Hc1 as [|x n c1 map_shape Hx _ IH]; intros c2 Hc2;
    inversion Hc2 as [|y n' c2' shape' Hy Hc2']; subst; cbn; [lia|].
  specialize (IH c2' Hc2').
  pose proof (Z.square_nonneg (Z.of_nat x - Z.of_nat y)).
  assert (0 ≤ (Z.of_nat n - (Z.of_nat x - Z.of_nat y))
              * (Z.of_nat n + (Z.of_nat x - Z.of_nat y)))
    by (apply Z.mul_nonneg_nonneg; lia).
  lia.
Qed.

(** The binary64 number that holds a squared distance, and whether its
    rounded root is above a radius. *)
Definition root_exceeds (s : Z) (r : float) : Prop :=
  PrimFloat.ltb r (PrimFloat.sqrt (of_uint63 (Uint63.of_Z s))) = true.

Lemma norm_exceeds_on_grid (map_shape : list nat) (r : float) (b1 b2 : nat)
    (c1 c2 : list nat) :
  on_grid map_shape b1 c1 → on_grid map_shape b2 c2 →
  separated map_shape r (b1, b2) ↔ root_exceeds (sq_distance c1 c2) r.
Proof.
  intros Hc1 Hc2.
  pose proof (sq_distance_bound map_shape c1 c2 (proj1 Hc1) (proj1 Hc2)) as [Hs _].
  apply on_grid_unique in Hc1, Hc2.
  unfold separated, root_exceeds, norm_exceeds, linalg_norm_int, of_Z. cbn [fst snd].
  rewrite <-Hc1, <-Hc2, dot_sq_distance.
  by rewrite bool_decide_false by lia.
Qed.

Lemma blocks_length {A} n k (l : list A) : length (blocks n k l) = k.
Proof. unfold blocks. by rewrite length_fmap, length_seq. Qed.

Lemma distances_column np_sum (weights x : ndarray float)
    (n_units n_features n_data s : nat) :
  (s < n_data)%nat →
  (λ row, nth s row 0%float) <$>
    distances np_sum
      ((λ w, (λ v, zip_with PrimFloat.sub w v) <$> blocks n_features n_data (data x))
         <$> blocks n_features n_units (data weights))
  = sq_distances np_sum weights x n_units n_features s.
Proof.
  intros Hs. unfold distances, sq_distances, blocks, vector.
  rewrite <-!list_fmap_compose. apply list_fmap_ext. intros _ c _. cbn.
  rewrite nth_lookup, !list_lookup_fmap, lookup_seq_lt by done. cbn.
  f_equal. rewrite zip_with_zip, <-list_fmap_compose.
  apply list_fmap_ext. by intros _ [w v] _.
Qed.

Lemma bmus_pairs np_argsort (dist : list (list float)) (n_data : nat) :
  (2 ≤ length dist)%nat →
  bmus np_argsort dist n_data
  = ((λ s, nth 0 (np_argsort ((λ row, nth s row 0%float) <$> dist)) 0%nat) <$> seq 0 n_data)
    ++ ((λ s, nth 1 (np_argsort ((λ row, nth s row 0%float) <$> dist)) 0%nat) <$> seq 0 n_data).
Proof.
  intros Hlen. unfold bmus. rewrite Nat.min_l by done. cbn.
  by rewrite app_nil_r, <-!list_fmap_compose.
Qed.

Lemma column_Ok {A} (b_ix : list A) k c : b_ix !! k = Some c → column b_ix k = Ok c.
Proof. unfold column. by intros ->. Qed.

Lemma topographic_error_value np_argsort np_sum (weights x : ndarray float) (r : float)
    (map_shape : list nat) (n_data n_features : nat) :
  shape weights = map_shape ++ [1%nat; n_features] →
  shape x = [n_data; n_features] →
  n_data ≠ 0%nat → (2 ≤ size map_shape)%nat →
  topographic_error np_argsort np_sum weights x r
  = Ok (mean_int ((λ p, if norm_exceeds (unravel_index p.1 map_shape)
                             (unravel_index p.2 map_shape) r then 1 else 0)
                    <$> bmu_pairs np_argsort np_sum weights x
                          (size map_shape) n_features n_data)).
Proof.
  intros Hw Hx Hn Hunits.
  assert (map_shape ≠ []) as Hgrid by (intros ->; cbn in Hunits; lia).
  unfold topographic_error, broadcast_sub.
  rewrite Hw, Hx, last2_app, but_last2_app. cbn [hd].
  rewrite (bool_decide_true (n_features = n_features)) by done.
  cbn [mbind result_bind].
  rewrite (bool_decide_false (n_data = 0%nat)), (bool_decide_false (map_shape = []))
    by done.
  set (diff := _ <$> blocks n_features (size map_shape) (data weights)).
  assert (length (distances np_sum diff) = size map_shape) as Hlen.
  { unfold distances, diff. by rewrite !length_fmap, blocks_length. }
  rewrite bmus_pairs by lia.
  set (order := λ i, np_argsort ((λ row, nth i row 0%float) <$> distances np_sum diff)).
  set (first := _ <$> seq 0 n_data). set (second := _ <$> seq 0 n_data).
  assert (length first = n_data) as Hfirst
    by (unfold first; by rewrite length_fmap, length_seq).
  rewrite (traverse_Ok _
    (λ i, if norm_exceeds (unravel_index (nth 0 (order i) 0%nat) map_shape)
               (unravel_index (nth 1 (order i) 0%nat) map_shape) r
          then 1 else 0)).
  - cbn [mbind result_bind]. do 2 f_equal. unfold bmu_pairs.
    rewrite <-list_fmap_compose. apply list_fmap_ext.
    intros j s Hs%lookup_seq. cbn.
    unfold order, diff. by rewrite distances_column by lia.
  - intros i Hi%elem_of_seq.
    rewrite (column_Ok _ i (unravel_index (nth 0 (order i) 0%nat) map_shape)).
    2:{ rewrite list_lookup_fmap, lookup_app_l by lia.
        unfold first. by rewrite list_lookup_fmap, lookup_seq_lt by lia. }
    cbn [mbind result_bind].
    rewrite (column_Ok _ (i + n_data) (unravel_index (nth 1 (order i) 0%nat) map_shape)).
    2:{ rewrite list_lookup_fmap, lookup_app_r by lia.
        replace (i + n_data - length first)%nat with i by lia.
        unfold second. by rewrite list_lookup_fmap, lookup_seq_lt by lia. }
    done.
Qed.

Lemma bmu_pairs_best_two np_argsort np_sum (weights x : ndarray float)
    (n_units n_features n_data s b1 b2 : nat) :
  sorts np_argsort → (2 ≤ n_units)%nat →
  bmu_pairs np_argsort np_sum weights x n_units n_features n_data !! s = Some (b1, b2) →
  best_two (sq_distances np_sum weights x n_units n_features s) b1 b2.
Proof.
  intros Hsorts Hunits. unfold bmu_pairs. rewrite list_lookup_fmap.
  destruct (seq 0 n_data !! s) as [s'|] eqn:Hs; [|done].
  apply lookup_seq in Hs as [-> _]. cbn. intros [= <- <-].
  apply sorts_best_two; [done|].
  unfold sq_distances. by rewrite length_fmap, length_seq.
Qed.

End topographic_claims.

Section topographic_theorem.
Import nd measures ranking.
Local Open Scope Z_scope.

(** C8 (amended): for float64 weights of shape [map_shape + (1, n_features)]
    on a grid of at least two units (and of squared axis lengths that sum
    to less than 2^53) and a batch of [n_data ≥ 1] samples of [n_features]
    features, [topographic_error] returns the number of samples whose best
    and second-best matching units count as separated, divided by
    [n_data].  The two units of a sample are two different units
    with the smallest and the next smallest squared distance to it, as
    binary64 computes the distances and in whatever order [np.sum] adds and
    [np.argsort] ranks equal distances.  Two units count as separated when
    the binary64 square root of the squared distance of their coordinates,
    an integer that binary64 holds exactly, is above [neighbor_radius].  The
    result lies in [0, 1]; it is 0 exactly when no sample has separated
    units and 1 exactly when all have. *)
Theorem topographic_error_is_fraction (np_argsort : list float → list nat)
    (np_sum : list float → float)
    (weights x : ndarray float) (neighbor_radius : float)
    (map_shape : list nat) (n_data n_features : nat) :
  sorts np_argsort →
  shape weights = map_shape ++ [1%nat; n_features] →
  shape x = [n_data; n_features] →
  n_data ≠ 0%nat → (2 ≤ size map_shape)%nat → exact_grid map_shape →
  let pairs := bmu_pairs np_argsort np_sum weights x (size map_shape) n_features n_data in
  let far := separated map_shape neighbor_radius in
  let e := (inject_Z (Z.of_nat (length (filter far pairs)))
            / inject_Z (Z.of_nat n_data))%Q in
  topographic_error np_argsort np_sum weights x neighbor_radius = Ok e ∧
  length pairs = n_data ∧
  (∀ s b1 b2, pairs !! s = Some (b1, b2) →
     best_two (sq_distances np_sum weights x (size map_shape) n_features s) b1 b2) ∧
  (∀ b, (b < size map_shape)%nat → ∃ c, on_grid map_shape b c) ∧
  (∀ b1 b2 c1 c2, on_grid map_shape b1 c1 → on_grid map_shape b2 c2 →
     0 ≤ sq_distance c1 c2 < 2 ^ 53 ∧
     (far (b1, b2) ↔ root_exceeds (sq_distance c1 c2) neighbor_radius)) ∧
  (0 <= e)%Q ∧ (e <= 1)%Q ∧
  ((e == 0)%Q ↔ Forall (λ p, ¬ far p) pairs) ∧
  ((e == 1)%Q ↔ Forall far pairs).
Proof.
  intros Hsorts Hw Hx Hn Hunits Hexact pairs far e.
  assert (length pairs = n_data) as Hpairs
    by (unfold pairs, bmu_pairs; by rewrite length_fmap, length_seq).
  pose proof (length_filter far pairs) as Hcount.
  destruct (fraction_bounds (length (filter far pairs)) n_data)
    as (Hlo & Hhi & Hzero & Hone); [done|lia|].
  fold e in Hlo, Hhi, Hzero, Hone.
  split_and!; try done.
  - rewrite (topographic_error_value _ _ _ _ _ map_shape n_data n_features) by done.
    f_equal. unfold mean_int. fold pairs.
    rewrite (sum_indicator (λ p, norm_exceeds (unravel_index p.1 map_shape)
                                   (unravel_index p.2 map_shape) neighbor_radius)).
    by rewrite length_fmap, Hpairs.
  - intros s b1 b2. by apply bmu_pairs_best_two.
  - intros b Hb. eexists. by apply unravel_on_grid.
  - intros b1 b2 c1 c2 Hc1 Hc2. split.
    + pose proof (sq_distance_bound map_shape c1 c2 (proj1 Hc1) (proj1 Hc2)).
      unfold exact_grid in Hexact. lia.
    + by apply norm_exceeds_on_grid.
  - by rewrite Hzero, filter_none.
  - by rewrite Hone, <-Hpairs, filter_all.
Qed.

Lemma topographic_error_is_fraction_witness :
  ∃ e, topographic_error argsort sum_in_order
         (NDArray [4; 1; 1]%nat [0; 10; 20; 1]%float)
         (NDArray [3; 1]%nat [0; 10; 18]%float) 1 = Ok e ∧
       (0 <= e)%Q ∧ (e <= 1)%Q.
Proof.
  destruct (topographic_error_is_fraction argsort sum_in_order
              (NDArray [4; 1; 1]%nat [0; 10; 20; 1]%float)
              (NDArray [3; 1]%nat [0; 10; 18]%float) 1 [4]%nat 3 1)
    as (He & _ & _ & _ & _ & Hlo & Hhi & _);
    [exact argsort_sorts|reflexivity|reflexivity|done|cbn; lia|by vm_compute|].
  eexists. split_and!; [exact He|exact Hlo|exact Hhi].
Defined.

(** C8, as stated, fails.  The code compares in binary64.  On a 2 x 2 x 2
    grid the best matching units of the sample below are the units at the
    coordinates (0, 0, 0) and (1, 1, 1), at distance √3.  The radius [r], the
    float nearest to √3, is below √3 (its square is below 3), so the
    distance exceeds it; [np.linalg.norm] returns [r] itself, the test
    [r > r] fails and the result is 0, not 1.  A grid of one unit has no
    second-best unit: the call raises IndexError and returns no fraction;
    so does, with ValueError, the call on an empty batch. *)
Lemma topographic_error_compares_in_binary64 :
  let weights := NDArray [2; 2; 2; 1; 1]%nat [0; 9; 9; 9; 9; 9; 9; 1]%float in
  let x := NDArray [1; 1]%nat [0]%float in
  let r := PrimFloat.sqrt 3 in
  bmu_pairs argsort sum_in_order weights x 8 1 1 = [(0, 7)]%nat ∧
  on_grid [2; 2; 2]%nat 0 [0; 0; 0]%nat ∧ on_grid [2; 2; 2]%nat 7 [1; 1; 1]%nat ∧
  sq_distance [0; 0; 0]%nat [1; 1; 1]%nat = 3 ∧
  linalg_norm_int [-1; -1; -1] = r ∧
  FloatOps.Prim2SF r = SpecFloat.S754_finite false 7800463371553962 (-52) ∧
  7800463371553962 * 7800463371553962 < 3 * (2 ^ 52 * 2 ^ 52) ∧
  topographic_error argsort sum_in_order weights x r = Ok 0%Q ∧
  topographic_error argsort sum_in_order
    (NDArray [1; 1; 2]%nat [0; 10]%float) (NDArray [1; 2]%nat [3; 4]%float) 1
  = Raise IndexError ∧
  topographic_error argsort sum_in_order
    (NDArray [4; 1; 1]%nat [0; 10; 20; 1]%float) (NDArray [0; 1]%nat []) 1
  = Raise ValueError.
Proof.
  split_and!; try by vm_compute.
  - split; [repeat constructor|done].
  - split; [repeat constructor|done].
Qed.

End topographic_theorem.

(** * Further properties of the encoders *)

(** ** Masked assignment *)

(** The entries a mask selects, in order, are the values assigned; the
    others keep what the array held. *)
Lemma scatter_compress {A} (array : list A) (mask : list bool) (values : list A) :
  length mask = length array → length values = count_true mask →
  np.compress mask (scatter array mask values) = values ∧
  ∀ i x, mask !! i = Some false → array !! i = Some x →
         scatter array mask values !! i = Some x.
Proof.
  revert mask values.
  induction array as [|a array IH]; intros [|b mask] values Hmask Hvalues;
    simplify_eq/=.
  { change (count_true []) with 0%nat in Hvalues.
    destruct values; [|done]. split; [done|]. by intros i x ?. }
  rewrite count_true_cons in Hvalues. destruct b.
  - destruct values as [|v values]; [done|]. simplify_eq/=.
    destruct (IH mask values) as [Hc Hf]; [done..|]. split; [by rewrite Hc|].
    intros [|i] x Hi Hx; simplify_eq/=. by apply Hf.
  - destruct (IH mask values) as [Hc Hf]; [done..|]. split; [done|].
    intros [|i] x Hi Hx; simplify_eq/=; [done|]. by apply Hf.
Qed.

(** A mask and the values computed entry by entry from one list. *)
Lemma scatter_pointwise {A B} (keep : A → bool) (g : A → B) (init : B) (l : list A) :
  scatter (replicate (length l) init) (keep <$> l)
    (g <$> np.compress (keep <$> l) l)
  = (λ x, if keep x then g x else init) <$> l.
Proof.
  induction l as [|x l IH]; [done|]. cbn. destruct (keep x); cbn; by rewrite IH.
Qed.

Lemma compress_fmap_length {A} (keep : A → bool) (l : list A) :
  length (np.compress (keep <$> l) l) = count_true (keep <$> l).
Proof. apply compress_length. by rewrite length_fmap. Qed.

Lemma mask_assign_pointwise {A B} (keep : A → bool) (g : A → B) (init : B) (l : list A) :
  _mask_assign (length l) (keep <$> l) (g <$> np.compress (keep <$> l) l) init
  = Ok ((λ x, if keep x then g x else init) <$> l).
Proof.
  unfold _mask_assign. rewrite bool_decide_true by by rewrite length_fmap.
  rewrite bool_decide_true by by rewrite length_fmap, compress_fmap_length.
  by rewrite scatter_pointwise.
Qed.

(** X1: when the mask has the length of the array and there is one value
    per selected position, [_mask_assign] returns an array of that length in
    which the selected positions hold the values, in order, and every other
    position holds [init]. *)
Theorem mask_assign_gathers {A} (shape : nat) (mask : list bool) (values : list A)
    (init : A) :
  length mask = shape → length values = count_true mask →
  ∃ array, _mask_assign shape mask values init = Ok array ∧
           length array = shape ∧
           np.compress mask array = values ∧
           ∀ i, mask !! i = Some false → array !! i = Some init.
Proof.
  intros Hmask Hvalues. unfold _mask_assign.
  rewrite !bool_decide_true by done. eexists. split; [done|].
  destruct (scatter_compress (replicate shape init) mask values) as [Hc Hf];
    [by rewrite length_replicate|done|].
  split_and!; [by rewrite scatter_length, length_replicate|done|].
  intros i Hi. apply Hf; [done|]. apply lookup_replicate_2.
  apply lookup_lt_Some in Hi. lia.
Qed.

Lemma mask_assign_gathers_witness :
  ∃ array, _mask_assign 4 [false; true; true; false] [7; 8] 0 = Ok array ∧
           np.compress [false; true; true; false] array = [7; 8] ∧
           array !! 3%nat = Some 0.
Proof.
  destruct (mask_assign_gathers 4 [false; true; true; false] [7; 8] 0)
    as (array & Ha & _ & Hc & Hf); [done..|].
  exists array. split_and!; [done..|]. by apply Hf.
Defined.

(** ** Labels outside the category set, and unseen samples *)

Lemma traverse_Raise {A B} (f : A → result B) (e : exception) (l : list A) :
  (∀ x, x ∈ l → f x = Raise e ∨ returns (f x)) →
  Exists (λ x, f x = Raise e) l → traverse f l = Raise e.
Proof.
  intros Hf Hex. induction l as [|x l IH]; [by apply Exists_nil in Hex|].
  cbn. destruct (Hf x) as [->|[y Hy]]; [by left|done|].
  rewrite Hy. cbn. apply Exists_cons in Hex as [Hx|Hex]; [congruence|].
  rewrite IH; [done| |done]. intros z Hz. apply Hf. by right.
Qed.

(** [a[k]] inside and outside the bounds numpy accepts. *)
Lemma getitem_bounds {A} (a : list A) (k : Z) :
  let n := Z.of_nat (length a) in
  (- n ≤ k < n → ∃ x, np.getitem a k = Ok x ∧ a !! Z.to_nat (k `mod` n) = Some x) ∧
  (¬ (- n ≤ k < n) → np.getitem a k = Raise IndexError).
Proof.
  intros n. unfold np.getitem. cbv zeta. fold n.
  assert (length a = Z.to_nat n) as Hlen by lia.
  destruct (decide (k < 0)) as [Hneg|Hneg].
  - rewrite (bool_decide_true (k < 0)) by done. split; intros Hk.
    + rewrite bool_decide_true by lia.
      replace (k `mod` n) with (k + n)
        by (apply Z.mod_unique with (-1); lia).
      destruct (lookup_lt_is_Some_2 a (Z.to_nat (k + n))) as [x Hx]; [lia|].
      rewrite Hx. by exists x.
    + by rewrite bool_decide_false by lia.
  - rewrite (bool_decide_false (k < 0)) by done. split; intros Hk.
    + rewrite bool_decide_true by lia. rewrite Z.mod_small by lia.
      destruct (lookup_lt_is_Some_2 a (Z.to_nat k)) as [x Hx]; [lia|].
      rewrite Hx. by exists x.
    + by rewrite bool_decide_false by lia.
Qed.

Section bounds.
Context {V : Type} `{EqDecision V}.
Implicit Types (self : OneHotEncoder.t V) (categories : list V).

Lemma take_bounds {A} (a : list A) (ks : list Z) :
  let n := Z.of_nat (length a) in
  (Forall (λ k, - n ≤ k < n) ks →
     ∃ xs, np.take a ks = Ok xs ∧
           Forall2 (λ k x, a !! Z.to_nat (k `mod` n) = Some x) ks xs) ∧
  (¬ Forall (λ k, - n ≤ k < n) ks → np.take a ks = Raise IndexError).
Proof.
  intros n. unfold np.take. split.
  - induction 1 as [|k ks Hk _ (xs & IH & Hxs)]; [by exists []|].
    destruct (getitem_bounds a k) as [Hin _]. destruct (Hin Hk) as (x & Hx & Hl).
    exists (x :: xs). cbn. rewrite Hx. cbn. rewrite IH. split; [done|by constructor].
  - intros Hex%not_Forall_Exists; [|apply _].
    apply traverse_Raise.
    + intros k _. destruct (decide (- n ≤ k < n)) as [Hk|Hk].
      * right. destruct (getitem_bounds a k) as [Hin _].
        destruct (Hin Hk) as (x & Hx & _). by exists x.
      * left. by apply getitem_bounds.
    + eapply Exists_impl; [exact Hex|]. intros k Hk. by apply getitem_bounds.
Qed.

(** X2: on a fitted encoder of [n] categories, [transform_from_labels] and
    [inverse_from_labels] accept exactly the labels in [-n, n): a label [l]
    is encoded as row [l mod n] of the identity matrix and inverted to the
    category at position [l mod n], so that a negative label counts from the
    last category; any label outside the range makes the call raise
    IndexError. *)
Theorem labels_are_indexed_like_numpy self categories (labels : list Z) :
  OneHotEncoder.categories self = Ok categories →
  let n := length categories in
  let accepted := Forall (λ l, - Z.of_nat n ≤ l < Z.of_nat n) labels in
  (accepted →
     OneHotEncoder.transform_from_labels self labels
       = Ok (np.Matrix n ((λ l, np.eye_row n (Z.to_nat (l `mod` Z.of_nat n))) <$> labels)) ∧
     ∃ inverted,
       OneHotEncoder.inverse_from_labels self labels = Ok inverted ∧
       Forall2 (λ l c, categories !! Z.to_nat (l `mod` Z.of_nat n) = Some c)
         labels inverted) ∧
  (¬ accepted →
     OneHotEncoder.transform_from_labels self labels = Raise IndexError ∧
     OneHotEncoder.inverse_from_labels self labels = Raise IndexError).
Proof.
  intros Hfit%categories_fitted n accepted.
  unfold OneHotEncoder.transform_from_labels, OneHotEncoder.inverse_from_labels,
    OneHotEncoder.n_categories, OneHotEncoder.categories.
  rewrite Hfit. cbn. fold n.
  destruct (take_bounds (np.eye n) labels) as [Heye Heye'].
  destruct (take_bounds categories labels) as [Hcat Hcat'].
  cbv zeta in Heye, Heye', Hcat, Hcat'.
  assert (length (np.eye n) = n) as Hlen
    by (unfold np.eye; by rewrite length_fmap, length_seq).
  rewrite Hlen in Heye, Heye'. fold n in Hcat, Hcat'. split.
  - intros Hacc. destruct (Heye Hacc) as (rows & -> & Hrows).
    split; [|by apply Hcat]. cbn. do 2 f_equal.
    clear -Hrows Hlen. induction Hrows as [|l row labels rows Hl _ IH]; [done|].
    cbn. rewrite IH. f_equal.
    pose proof (lookup_lt_Some _ _ _ Hl) as Hidx. rewrite Hlen in Hidx.
    rewrite eye_lookup in Hl by done. by injection Hl as <-.
  - intros Hacc. by rewrite Heye', Hcat'.
Qed.

End bounds.

Lemma labels_are_indexed_like_numpy_witness :
  OneHotEncoder.transform_from_labels doctest.oh [-1; 1]
    = Ok (np.Matrix 4 [[0; 0; 0; 1]; [0; 1; 0; 0]]) ∧
  OneHotEncoder.transform_from_labels doctest.oh [4] = Raise IndexError.
Proof.
  destruct (labels_are_indexed_like_numpy doctest.oh
              ["a"; "b"; "c"; "d"]%string [-1; 1]) as [Hin _]; [reflexivity|].
  destruct (labels_are_indexed_like_numpy doctest.oh
              ["a"; "b"; "c"; "d"]%string [4]) as [_ Hout]; [reflexivity|].
  split.
  - apply Hin. repeat constructor; cbn; lia.
  - apply Hout. intros Hall. apply Forall_cons in Hall as [Hl _]. cbn in Hl. lia.
Defined.


Section unseen.
Context {V : Type} `{EqDecision V}.
Implicit Types (self : OneHotEncoder.t V) (categories : list V).

(** The category the base encoder takes a sample for. *)
Definition taken_for categories (first : V) (s : V) : V :=
  if bool_decide (s ∈ categories) then s else first.

Lemma label_of_taken_for (first : V) (rest : list V) (s : V) :
  NoDup (first :: rest) →
  label_of (first :: rest) (taken_for (first :: rest) first s)
  = label_of (first :: rest) s.
Proof.
  intros Hnd. unfold taken_for. case_bool_decide as Hs; [done|].
  by rewrite (label_of_unique _ first 0), label_of_absent.
Qed.

(** X3: a base encoder fitted on distinct categories, the first of which is
    [first], encodes a sample outside the category set exactly as it encodes
    [first]; so [transform] returns for any samples and
    [inverse(transform(samples))] is [samples] with every unseen sample
    replaced by [first]. *)
Theorem unseen_samples_become_first_category self (first : V) (rest samples : list V) :
  OneHotEncoder.categories self = Ok (first :: rest) → NoDup (first :: rest) →
  let seen := taken_for (first :: rest) first <$> samples in
  OneHotEncoder.transform self samples = OneHotEncoder.transform self seen ∧
  OneHotEncoder.transform self samples ≫= OneHotEncoder.inverse self = Ok seen.
Proof.
  intros Hfit%categories_fitted Hnd seen.
  assert (OneHotEncoder.transform self samples = OneHotEncoder.transform self seen)
    as Hsame.
  { unfold OneHotEncoder.transform.
    rewrite !(transform_to_labels_spec _ (first :: rest)) by done.
    unfold seen. rewrite <-list_fmap_compose. do 2 f_equal.
    apply list_fmap_ext. intros _ s _. cbn. by rewrite label_of_taken_for. }
  split; [done|]. rewrite Hsame.
  apply (OneHot_round_trip self (first :: rest)); [done..|].
  intros s (s' & -> & _)%list_elem_of_fmap. unfold taken_for.
  case_bool_decide; [done|by left].
Qed.

End unseen.

Lemma unseen_samples_become_first_category_witness :
  OneHotEncoder.transform doctest.oh ["c"; "z"]%string
    ≫= OneHotEncoder.inverse doctest.oh = Ok ["c"; "a"]%string.
Proof.
  destruct (unseen_samples_become_first_category doctest.oh
              "a"%string ["b"; "c"; "d"]%string ["c"; "z"]%string)
    as [_ Hinv]; [reflexivity|by apply (bool_decide_unpack _)|].
  exact Hinv.
Defined.

(** ** The masked encoders, entry by entry *)

Lemma compress_fmap {A B} (f : A → B) (mask : list bool) (l : list A) :
  np.compress mask (f <$> l) = f <$> np.compress mask l.
Proof.
  revert l. induction mask as [|b mask IH]; intros [|x l]; cbn; try done.
  destruct b; cbn; by rewrite IH.
Qed.

Lemma compress_Forall {A} (keep : A → bool) (l : list A) :
  Forall (λ x, keep x = true) (np.compress (keep <$> l) l).
Proof.
  induction l as [|x l IH]; cbn; [done|].
  destruct (keep x) eqn:Hx; [by constructor|done].
Qed.

Lemma omap_id_compress {A B} (h : A → B) (d : B) (l : list (option A)) :
  h <$> omap id l
  = (λ o, match o with Some a => h a | None => d end)
      <$> np.compress ((λ o, negb (bool_decide (o = None))) <$> l) l.
Proof.
  induction l as [|[a|] l IH]; cbn; [done|..]; by rewrite IH.
Qed.

Lemma Z_of_nat_to_nat (l : list Z) :
  Forall (λ k, 0 ≤ k) l → Z.of_nat <$> (Z.to_nat <$> l) = l.
Proof.
  induction 1 as [|k l Hk _ IH]; [done|]. cbn. rewrite IH. f_equal. lia.
Qed.

Section masked.
Context {V : Type} `{EqDecision V}.
Implicit Types (self : OneHotEncoder.t V) (categories : list V).

(** The position a masked encoder codes an entry with: none for a missing
    entry and for a value outside the category set. *)
Definition position categories (o : option V) : option nat :=
  match o with
  | Some v =>
      if bool_decide (v ∈ categories) then Some (Z.to_nat (label_of categories v))
      else None
  | None => None
  end.

(** The row that encodes a position. *)
Definition row_of (n : nat) (k : option nat) : list Z :=
  match k with Some k => np.eye_row n k | None => replicate n 0 end.

Lemma position_bound categories o k :
  position categories o = Some k → (k < length categories)%nat.
Proof.
  destruct o as [v|]; cbn; [|done]. case_bool_decide as Hv; [|done].
  intros [= <-]. pose proof (label_of_bound categories v).
  destruct categories; [by apply elem_of_nil in Hv|cbn in *; lia].
Qed.

Lemma position_lookup categories (v : V) k :
  NoDup categories → categories !! k = Some v →
  position categories (Some v) = Some k.
Proof.
  intros Hnd Hk. cbn. rewrite bool_decide_true by by eapply list_elem_of_lookup_2.
  by rewrite (label_of_unique _ _ k), Nat2Z.id.
Qed.

Lemma position_None categories o :
  position categories o = None ↔ o = None ∨ ∃ v, o = Some v ∧ v ∉ categories.
Proof.
  destruct o as [v|]; cbn; [|by split; [left|]].
  case_bool_decide as Hv; split; try done.
  - intros [?|(v' & [= <-] & ?)]; done.
  - intros _. right. by exists v.
Qed.

Lemma NanHot_transform_to_labels_spec self categories (samples : list (option V)) :
  OneHotEncoder._categories self = Some categories →
  NanHotEncoder.transform_to_labels self samples
  = Ok ((λ o, Z.of_nat <$> position categories o) <$> samples).
Proof.
  intros Hfit. unfold NanHotEncoder.transform_to_labels, OneHotEncoder.categories.
  rewrite Hfit. cbn. fold (unknown categories).
  rewrite (transform_to_labels_spec _ categories) by done. cbn.
  rewrite <-(list_fmap_compose (unknown categories) negb).
  assert (Some <$> (label_of categories <$>
            omap id (np.compress (negb ∘ unknown categories <$> samples) samples))
          = (λ o, Z.of_nat <$> position categories o)
              <$> np.compress (negb ∘ unknown categories <$> samples) samples) as ->.
  { clear Hfit. induction samples as [|[v|] samples IH]; cbn; [done| |done].
    case_bool_decide as Hv; cbn; [|done]. rewrite IH. f_equal.
    rewrite bool_decide_true by done. cbn. f_equal.
    pose proof (label_of_bound categories v). lia. }
  rewrite mask_assign_pointwise. f_equal. apply list_fmap_ext.
  intros _ [v|] _; cbn; [|done]. by case_bool_decide.
Qed.

Lemma NanHot_transform_from_labels_spec self categories (ks : list (option nat)) :
  OneHotEncoder._categories self = Some categories →
  Forall (λ k, ∀ i, k = Some i → (i < length categories)%nat) ks →
  NanHotEncoder.transform_from_labels self (fmap (M:=option) Z.of_nat <$> ks)
  = Ok {| pd.values := np.Matrix (length categories)
                         (row_of (length categories) <$> ks);
          pd.columns := categories |}.
Proof.
  intros Hfit Hks. unfold NanHotEncoder.transform_from_labels.
  set (n := length categories).
  assert (omap id (fmap (M:=option) Z.of_nat <$> ks) = Z.of_nat <$> omap id ks) as Hpresent.
  { clear. induction ks as [|[k|] ks IH]; cbn; [done|..]; by rewrite IH. }
  rewrite Hpresent, (transform_from_labels_nat _ categories) by
    (try done; clear -Hks; induction Hks as [|[k|] ks Hk _ IH]; cbn; auto).
  unfold OneHotEncoder.n_categories, OneHotEncoder.categories.
  rewrite Hfit. cbn. fold n.
  rewrite (omap_id_compress (np.eye_row n) (replicate n 0)).
  rewrite <-!list_fmap_compose, length_fmap.
  assert (np.compress (negb ∘ (λ l, bool_decide (l = None)) ∘ fmap (M:=option) Z.of_nat <$> ks)
            (row_of n <$> ks)
          = row_of n <$> np.compress
              (negb ∘ (λ l, bool_decide (l = None)) ∘ fmap (M:=option) Z.of_nat <$> ks) ks)
    as Hrows by apply compress_fmap.
  replace ((λ o, match o with Some a => np.eye_row n a | None => replicate n 0 end)
             <$> np.compress ((λ o, negb (bool_decide (o = None))) <$> ks) ks)
    with (row_of n <$> np.compress
            (negb ∘ (λ l, bool_decide (l = None)) ∘ fmap (M:=option) Z.of_nat <$> ks) ks).
  2:{ f_equal. f_equal. apply list_fmap_ext. by intros _ [k|] _. }
  rewrite mask_assign_pointwise. cbn. do 3 f_equal.
  apply list_fmap_ext. by intros _ [k|] _.
Qed.

(** X4: on a [NanHotEncoder] fitted with distinct categories,
    [transform_to_labels] and [transform] return for any samples, one label
    and one row per sample.  A missing entry and a value outside the
    category set get the missing label and an all-zero row; a value of the
    category set gets its position as label and the row of the identity
    matrix at that position. *)
Theorem NanHot_transform_by_entry self categories (samples : list (option V)) :
  OneHotEncoder.categories self = Ok categories → NoDup categories →
  let n := length categories in
  ∃ labels rows,
    NanHotEncoder.transform_to_labels self samples = Ok labels ∧
    NanHotEncoder.transform self samples
      = Ok {| pd.values := np.Matrix n rows; pd.columns := categories |} ∧
    length labels = length samples ∧ length rows = length samples ∧
    (∀ i, samples !! i = Some None →
          labels !! i = Some None ∧ rows !! i = Some (replicate n 0)) ∧
    (∀ i v, samples !! i = Some (Some v) → v ∉ categories →
          labels !! i = Some None ∧ rows !! i = Some (replicate n 0)) ∧
    (∀ i v k, samples !! i = Some (Some v) → categories !! k = Some v →
          labels !! i = Some (Some (Z.of_nat k)) ∧
          rows !! i = Some (np.eye_row n k)).
Proof.
  intros Hfit%categories_fitted Hnd n.
  exists ((λ o, Z.of_nat <$> position categories o) <$> samples),
         (row_of n <$> (position categories <$> samples)).
  split_and!.
  - by apply NanHot_transform_to_labels_spec.
  - unfold NanHotEncoder.transform.
    rewrite (NanHot_transform_to_labels_spec _ categories) by done. cbn.
    replace ((λ o, Z.of_nat <$> position categories o) <$> samples)
      with (fmap (M:=option) Z.of_nat <$> (position categories <$> samples))
      by by rewrite <-list_fmap_compose.
    apply NanHot_transform_from_labels_spec; [done|].
    apply Forall_fmap, Forall_forall. intros o _ k Hk. cbn in Hk.
    by eapply position_bound.
  - by rewrite length_fmap.
  - by rewrite !length_fmap.
  - intros i Hi. by rewrite !list_lookup_fmap, Hi.
  - intros i v Hi Hv. rewrite !list_lookup_fmap, Hi. cbn.
    by rewrite bool_decide_false.
  - intros i v k Hi Hk. rewrite !list_lookup_fmap, Hi.
    cbn [fmap option_fmap option_map]. by rewrite (position_lookup _ _ k).
Qed.

(** X5: the masked inversion the source names [inverse_to_lables] undoes
    [transform_from_labels]: on a fitted [NanHotEncoder] with at least one
    category, labels that are missing or positions of the category set come
    back unchanged, the missing ones as missing. *)
Theorem NanHot_lables_round_trip self categories (ks : list (option nat)) :
  OneHotEncoder.categories self = Ok categories → categories ≠ [] →
  Forall (λ k, ∀ i, k = Some i → (i < length categories)%nat) ks →
  let labels := fmap (M:=option) Z.of_nat <$> ks in
  NanHotEncoder.transform_from_labels self labels
    ≫= (λ df, NanHotEncoder.inverse_to_lables (pd.values df)) = Ok labels.
Proof.
  intros Hfit%categories_fitted Hne Hks labels. unfold labels.
  rewrite (NanHot_transform_from_labels_spec _ categories) by done. cbn.
  set (n := length categories).
  assert (n ≠ 0%nat) as Hn by (subst n; by destruct categories).
  unfold NanHotEncoder.inverse_to_lables, OneHotEncoder.inverse_to_labels, np.argmax.
  cbn. rewrite bool_decide_false by done. cbn.
  rewrite <-!list_fmap_compose, compress_fmap, <-!list_fmap_compose, length_fmap.
  rewrite mask_assign_pointwise. f_equal.
  apply Forall_fmap_ext_1. eapply Forall_impl; [exact Hks|].
  intros [k|] Hk; cbn.
  - rewrite sum_eye_row by by apply Hk. cbn.
    by rewrite argmax_eye_row by by apply Hk.
  - by rewrite sum_zero_row.
Qed.

End masked.

Lemma NanHot_transform_by_entry_witness :
  ∃ rows,
    NanHotEncoder.transform doctest.nh [None; Some "c"; Some "z"]%string
      = Ok {| pd.values := np.Matrix 4 rows;
              pd.columns := ["a"; "b"; "c"; "d"]%string |} ∧
    rows !! 0%nat = Some [0; 0; 0; 0] ∧ rows !! 1%nat = Some [0; 0; 1; 0].
Proof.
  destruct (NanHot_transform_by_entry doctest.nh ["a"; "b"; "c"; "d"]%string
              [None; Some "c"; Some "z"]%string)
    as (labels & rows & _ & Hrows & _ & _ & Hnone & _ & Hknown);
    [reflexivity|by apply (bool_decide_unpack _)|].
  exists rows. split_and!; [exact Hrows|by apply Hnone|].
  by apply (Hknown 1%nat "c"%string 2%nat).
Defined.

Lemma NanHot_lables_round_trip_witness :
  NanHotEncoder.transform_from_labels doctest.nh [None; Some 2; Some 0]
    ≫= (λ df, NanHotEncoder.inverse_to_lables (pd.values df))
  = Ok [None; Some 2; Some 0].
Proof.
  apply (NanHot_lables_round_trip doctest.nh ["a"; "b"; "c"; "d"]%string
           [None; Some 2%nat; Some 0%nat]); [reflexivity|done|].
  repeat first [apply Forall_nil_2|apply Forall_cons_2];
    intros i Hi; simplify_eq; cbn; lia.
Defined.

Section masked_codes.
Context {V : Type} `{EqDecision V}.
Implicit Types (self : OneHotEncoder.t V) (categories : list V).

(** The pandas code of a position, [-1] for none. *)
Definition code (k : option nat) : Z := from_option Z.of_nat (-1) k.

Lemma recode_code categories (o : option V) :
  NoDup categories → pd.recode categories o = code (position categories o).
Proof.
  intros Hnd. destruct o as [v|]; [|done]. cbn [position].
  case_bool_decide as Hv.
  - apply list_elem_of_lookup in Hv as [k Hk].
    rewrite (recode_position _ k v), (label_of_unique _ _ k) by done.
    cbn. by rewrite Nat2Z.id.
  - unfold pd.recode.
    destruct (list_find (λ c, c = v) categories) as [[i c]|] eqn:Hfind; [|done].
    apply list_find_Some in Hfind as (Hi & -> & _).
    by apply list_elem_of_lookup_2 in Hi.
Qed.

Lemma CatHot_transform_from_labels_spec self categories (ks : list (option nat)) :
  OneHotEncoder._categories self = Some categories →
  Forall (λ k, ∀ i, k = Some i → (i < length categories)%nat) ks →
  CatHotEncoder.transform_from_labels self (code <$> ks)
  = Ok {| pd.values := np.Matrix (length categories)
                         (row_of (length categories) <$> ks);
          pd.columns := categories |}.
Proof.
  intros Hfit Hks. unfold CatHotEncoder.transform_from_labels.
  set (n := length categories).
  rewrite <-!list_fmap_compose, compress_fmap.
  assert (code <$> np.compress (negb ∘ (λ l, bool_decide (l = -1)) ∘ code <$> ks) ks
          = Z.of_nat <$> omap id ks) as ->.
  { clear. induction ks as [|[k|] ks IH]; cbn; [done| |done].
    rewrite bool_decide_false by lia. cbn. by rewrite IH. }
  rewrite (transform_from_labels_nat _ categories) by
    (try done; clear -Hks; induction Hks as [|[k|] ks Hk _ IH]; cbn; auto).
  unfold OneHotEncoder.n_categories, OneHotEncoder.categories.
  rewrite Hfit. cbn. fold n.
  rewrite (omap_id_compress (np.eye_row n) (replicate n 0)), length_fmap.
  replace ((λ o, negb (bool_decide (o = None))) <$> ks)
    with (negb ∘ (λ l, bool_decide (l = -1)) ∘ code <$> ks).
  2:{ apply list_fmap_ext. intros _ [k|] _; cbn; [|done].
      by rewrite bool_decide_false by lia. }
  rewrite mask_assign_pointwise. cbn. do 3 f_equal.
  apply list_fmap_ext. intros _ [k|] _; cbn; [|done].
  by rewrite bool_decide_false by lia.
Qed.

Lemma CatHot_transform_spec self categories (samples : pd.Categorical V) :
  OneHotEncoder._categories self = Some categories → NoDup categories →
  CatHotEncoder.transform self samples
  = Ok {| pd.values := np.Matrix (length categories)
            (row_of (length categories)
               <$> (position categories <$> pd.cat_values samples));
          pd.columns := categories |}.
Proof.
  intros Hfit Hnd.
  unfold CatHotEncoder.transform, OneHotEncoder.categories, pd.cat_set_categories.
  rewrite Hfit. cbn. rewrite bool_decide_true by done. cbn.
  replace (pd.recode categories <$> pd.cat_values samples)
    with (code <$> (position categories <$> pd.cat_values samples)).
  2:{ rewrite <-list_fmap_compose. apply list_fmap_ext.
      intros _ o _. cbn. by rewrite recode_code. }
  apply CatHot_transform_from_labels_spec; [done|].
  apply Forall_fmap, Forall_forall. intros o _ k Hk. cbn in Hk.
  by eapply position_bound.
Qed.

(** X6: on a fitted [CatHotEncoder] whose categories are distinct,
    [transform] returns for any categorical series, one row per entry: an
    all-zero row for a missing entry and for a value outside the encoder's
    category set, the row of the identity matrix at its position for a value
    of the category set. *)
Theorem CatHot_transform_by_entry self categories (samples : pd.Categorical V) :
  OneHotEncoder.categories self = Ok categories → NoDup categories →
  let n := length categories in
  ∃ rows,
    CatHotEncoder.transform self samples
      = Ok {| pd.values := np.Matrix n rows; pd.columns := categories |} ∧
    length rows = length (pd.cat_codes samples) ∧
    (∀ i, pd.cat_values samples !! i = Some None →
          rows !! i = Some (replicate n 0)) ∧
    (∀ i v, pd.cat_values samples !! i = Some (Some v) → v ∉ categories →
          rows !! i = Some (replicate n 0)) ∧
    (∀ i v k, pd.cat_values samples !! i = Some (Some v) →
          categories !! k = Some v → rows !! i = Some (np.eye_row n k)).
Proof.
  intros Hfit%categories_fitted Hnd n.
  exists (row_of n <$> (position categories <$> pd.cat_values samples)).
  split_and!.
  - by apply CatHot_transform_spec.
  - unfold pd.cat_values. by rewrite !length_fmap.
  - intros i Hi. by rewrite !list_lookup_fmap, Hi.
  - intros i v Hi Hv. rewrite !list_lookup_fmap, Hi. cbn.
    by rewrite bool_decide_false.
  - intros i v k Hi Hk. rewrite !list_lookup_fmap, Hi.
    cbn [fmap option_fmap option_map]. by rewrite (position_lookup _ _ k).
Qed.

(** X7: the two masked encoders agree.  With the same distinct categories,
    [CatHotEncoder.transform] of a categorical series is
    [NanHotEncoder.transform] of the entries of that series. *)
Theorem CatHot_transform_is_NanHot_transform self categories
    (samples : pd.Categorical V) :
  OneHotEncoder.categories self = Ok categories → NoDup categories →
  CatHotEncoder.transform self samples
  = NanHotEncoder.transform self (pd.cat_values samples).
Proof.
  intros Hfit%categories_fitted Hnd.
  rewrite (CatHot_transform_spec _ categories) by done.
  unfold NanHotEncoder.transform.
  rewrite (NanHot_transform_to_labels_spec _ categories) by done. cbn.
  replace ((λ o, Z.of_nat <$> position categories o) <$> pd.cat_values samples)
    with (fmap (M:=option) Z.of_nat
            <$> (position categories <$> pd.cat_values samples))
    by by rewrite <-list_fmap_compose.
  symmetry. apply NanHot_transform_from_labels_spec; [done|].
  apply Forall_fmap, Forall_forall. intros o _ k Hk. cbn in Hk.
  by eapply position_bound.
Qed.

Lemma CatHot_lables_of_rows (n : nat) (ks : list (option nat)) :
  n ≠ 0%nat → Forall (λ k, ∀ i, k = Some i → (i < n)%nat) ks →
  CatHotEncoder.inverse_to_lables (np.Matrix n (row_of n <$> ks)) = Ok (code <$> ks).
Proof.
  intros Hn Hks.
  unfold CatHotEncoder.inverse_to_lables, OneHotEncoder.inverse_to_labels, np.argmax.
  cbn. rewrite bool_decide_false by done. cbn.
  rewrite <-!list_fmap_compose, compress_fmap, <-!list_fmap_compose, length_fmap.
  rewrite mask_assign_pointwise. f_equal.
  apply Forall_fmap_ext_1. eapply Forall_impl; [exact Hks|].
  intros [k|] Hk; cbn.
  - rewrite sum_eye_row by by apply Hk. cbn.
    by rewrite argmax_eye_row by by apply Hk.
  - by rewrite sum_zero_row.
Qed.

(** X8: the masked inversion the source names [inverse_to_lables] undoes
    [transform_from_labels] of [CatHotEncoder]: on a fitted encoder with at
    least one category, codes between [-1] and the number of categories come
    back unchanged, [-1] as [-1]. *)
Theorem CatHot_lables_round_trip self categories (codes : list Z) :
  OneHotEncoder.categories self = Ok categories → categories ≠ [] →
  Forall (λ c, -1 ≤ c < Z.of_nat (length categories)) codes →
  CatHotEncoder.transform_from_labels self codes
    ≫= (λ df, CatHotEncoder.inverse_to_lables (pd.values df)) = Ok codes.
Proof.
  intros Hfit%categories_fitted Hne Hcodes.
  set (pos := λ c : Z, if bool_decide (c = -1) then None else Some (Z.to_nat c)).
  assert (codes = code <$> (pos <$> codes)) as Hpos.
  { rewrite <-list_fmap_compose. symmetry. rewrite <-(list_fmap_id codes) at 2.
    apply Forall_fmap_ext_1. eapply Forall_impl; [exact Hcodes|].
    intros c Hc. unfold pos, compose, code, id. cbv beta in Hc.
    case_bool_decide; cbn [from_option]; lia. }
  assert (Forall (λ k, ∀ i, k = Some i → (i < length categories)%nat) (pos <$> codes))
    as Hks.
  { apply Forall_fmap. eapply Forall_impl; [exact Hcodes|].
    intros c Hc i. unfold pos. cbv beta in Hc.
    case_bool_decide; [done|]. intros [= <-]. lia. }
  rewrite Hpos.
  rewrite (CatHot_transform_from_labels_spec _ categories) by done. cbn.
  apply CatHot_lables_of_rows; [by destruct categories|done].
Qed.

Lemma present_labels (ks : list (option nat)) :
  omap id (fmap (M:=option) Z.of_nat <$> ks) = Z.of_nat <$> omap id ks.
Proof. induction ks as [|[k|] ks IH]; cbn; [done|..]; by rewrite IH. Qed.

Lemma NanHot_inverse_from_labels_spec self categories (ks : list (option nat)) :
  OneHotEncoder._categories self = Some categories →
  Forall (λ k, ∀ i, k = Some i → (i < length categories)%nat) ks →
  NanHotEncoder.inverse_from_labels self (fmap (M:=option) Z.of_nat <$> ks)
  = Ok ((λ k, k ≫= (categories !!.)) <$> ks).
Proof.
  intros Hfit Hks. unfold NanHotEncoder.inverse_from_labels.
  rewrite present_labels.
  rewrite (inverse_from_positions _ categories _
             (omap (λ k, k ≫= (categories !!.)) ks)); [|done|].
  2:{ clear -Hks. induction Hks as [|[k|] ks Hk _ IH]; cbn; [done| |done].
      destruct (lookup_lt_is_Some_2 categories k) as [v Hv]; [by apply Hk|].
      rewrite Hv. by constructor. }
  cbn. f_equal. clear -Hks.
  induction Hks as [|[k|] ks Hk _ IH]; cbn; [done|..].
  - destruct (lookup_lt_is_Some_2 categories k) as [v Hv]; [by apply Hk|].
    rewrite Hv. cbn. by rewrite IH.
  - by rewrite IH.
Qed.

(** X9: the label level round trip of [NanHotEncoder].  On a fitted encoder
    with distinct categories, [inverse_from_labels] after
    [transform_to_labels] returns for any samples, and gives back every
    sample of the category set; a missing entry stays missing and a value
    outside the category set comes back missing. *)
Theorem NanHot_labels_round_trip self categories (samples : list (option V)) :
  OneHotEncoder.categories self = Ok categories → NoDup categories →
  NanHotEncoder.transform_to_labels self samples
    ≫= NanHotEncoder.inverse_from_labels self
  = Ok ((λ o, match o with
              | Some v => if bool_decide (v ∈ categories) then Some v else None
              | None => None
              end) <$> samples).
Proof.
  intros Hfit%categories_fitted Hnd.
  rewrite (NanHot_transform_to_labels_spec _ categories) by done. cbn.
  replace ((λ o, Z.of_nat <$> position categories o) <$> samples)
    with (fmap (M:=option) Z.of_nat <$> (position categories <$> samples))
    by by rewrite <-list_fmap_compose.
  rewrite (NanHot_inverse_from_labels_spec _ categories); [|done|].
  2:{ apply Forall_fmap, Forall_forall. intros o _ k Hk. cbn in Hk.
      by eapply position_bound. }
  f_equal. rewrite <-list_fmap_compose. apply list_fmap_ext.
  intros _ [v|] _; cbn; [|done]. case_bool_decide as Hv; [|done]. cbn.
  apply list_elem_of_lookup in Hv as [k Hk].
  by rewrite (label_of_unique _ _ k), Nat2Z.id.
Qed.

End masked_codes.

Lemma CatHot_transform_by_entry_witness :
  ∃ rows,
    CatHotEncoder.transform doctest.ch doctest.s
      = Ok {| pd.values := np.Matrix 4 rows;
              pd.columns := ["a"; "b"; "c"; "d"]%string |} ∧
    rows !! 0%nat = Some [0; 0; 0; 0] ∧ rows !! 1%nat = Some [0; 0; 1; 0].
Proof.
  destruct (CatHot_transform_by_entry doctest.ch ["a"; "b"; "c"; "d"]%string doctest.s)
    as (rows & Hrows & _ & Hnone & _ & Hknown);
    [reflexivity|by apply (bool_decide_unpack _)|].
  exists rows. split_and!; [exact Hrows|by apply Hnone|].
  by apply (Hknown 1%nat "c"%string 2%nat).
Defined.

Lemma CatHot_transform_is_NanHot_transform_witness :
  CatHotEncoder.transform doctest.ch doctest.s
  = NanHotEncoder.transform doctest.ch (pd.cat_values doctest.s).
Proof.
  apply (CatHot_transform_is_NanHot_transform doctest.ch ["a"; "b"; "c"; "d"]%string);
    [reflexivity|by apply (bool_decide_unpack _)].
Defined.

Lemma CatHot_lables_round_trip_witness :
  CatHotEncoder.transform_from_labels doctest.ch [-1; 2; 0]
    ≫= (λ df, CatHotEncoder.inverse_to_lables (pd.values df)) = Ok [-1; 2; 0].
Proof.
  apply (CatHot_lables_round_trip doctest.ch ["a"; "b"; "c"; "d"]%string);
    [reflexivity|done|].
  repeat first [apply Forall_nil_2|apply Forall_cons_2]; cbn; lia.
Defined.

Lemma NanHot_labels_round_trip_witness :
  NanHotEncoder.transform_to_labels doctest.nh [None; Some "c"; Some "z"]%string
    ≫= NanHotEncoder.inverse_from_labels doctest.nh
  = Ok [None; Some "c"; None]%string.
Proof.
  pose proof (NanHot_labels_round_trip doctest.nh ["a"; "b"; "c"; "d"]%string
                [None; Some "c"; Some "z"]%string) as Hround.
  assert (NoDup ["a"; "b"; "c"; "d"]%string) as Hnd
    by by apply (bool_decide_unpack _).
  exact (Hround eq_refl Hnd).
Defined.

(** ** Fitting, and calling an encoder before it *)

Section fitting.
Context {V : Type} `{EqDecision V} (V_le : relation V) `{!RelDecision V_le}.

Lemma np_unique_Sorted `{!Total V_le} (a : list V) : Sorted V_le (np_unique V_le a).
Proof. apply Sorted_merge_sort, _. Qed.

Lemma omap_id_elem_of (samples : list (option V)) v :
  v ∈ omap id samples ↔ Some v ∈ samples.
Proof.
  rewrite list_elem_of_omap. split.
  - by intros ([x|] & Hx & [= <-]).
  - intros Hv. by exists (Some v).
Qed.

(** X10: [fit] of each class replaces whatever the encoder held by the
    distinct values it is given, in sorted order: the values of the samples
    for [OneHotEncoder], the values of the entries that are present for
    [NanHotEncoder], the category dictionary of the series (not only the
    values that occur in it) for [CatHotEncoder]. *)
Theorem fit_keeps_sorted_distinct_values `{!Total V_le} (self : OneHotEncoder.t V)
    (samples : list V) (entries : list (option V)) (series : pd.Categorical V) :
  (∃ categories,
     OneHotEncoder.categories (OneHotEncoder.fit V_le self samples) = Ok categories ∧
     NoDup categories ∧ Sorted V_le categories ∧
     ∀ v, v ∈ categories ↔ v ∈ samples) ∧
  (∃ categories,
     OneHotEncoder.categories (NanHotEncoder.fit V_le self entries) = Ok categories ∧
     NoDup categories ∧ Sorted V_le categories ∧
     ∀ v, v ∈ categories ↔ Some v ∈ entries) ∧
  (∃ categories,
     OneHotEncoder.categories (CatHotEncoder.fit V_le self series) = Ok categories ∧
     NoDup categories ∧ Sorted V_le categories ∧
     ∀ v, v ∈ categories ↔ v ∈ pd.cat_categories series).
Proof.
  split_and!; eexists; (split; [reflexivity|]);
    split_and!; try apply np_unique_NoDup; try by apply np_unique_Sorted.
  - apply np_unique_elem_of.
  - intros v. by rewrite np_unique_elem_of, omap_id_elem_of.
  - apply np_unique_elem_of.
Qed.

End fitting.

Section unfitted.
Context {V : Type} `{EqDecision V}.

Definition not_fitted {A} : result A := Raise (ProgrammingError "Encoder not fitted!").

Definition not_1d {A} : result A :=
  Raise (ProgrammingError "Encoder only accepts 1-dimensional data.").

(** X11: an encoder that has not been fitted raises the ProgrammingError
    "Encoder not fitted!" from every method that encodes, and from
    [inverse_from_labels], for every 1-dimensional argument; [inverse]
    raises it once the static [inverse_to_labels] has returned the labels of
    its argument.  Labels of more than one axis never get that far in the
    masked encoders: [transform_from_labels] refuses them with the
    ProgrammingError "Encoder only accepts 1-dimensional data." before it
    reads the categories. *)
Theorem methods_need_fit (self : OneHotEncoder.t V) :
  OneHotEncoder._categories self = None →
  (∀ samples, OneHotEncoder.transform_to_labels self samples = not_fitted) ∧
  (∀ labels, OneHotEncoder.transform_from_labels self labels = not_fitted) ∧
  (∀ samples, OneHotEncoder.transform self samples = not_fitted) ∧
  (∀ labels, OneHotEncoder.inverse_from_labels self labels = not_fitted) ∧
  (∀ samples, NanHotEncoder.transform_to_labels self samples = not_fitted) ∧
  (∀ labels, NanHotEncoder.transform_from_labels self labels = not_fitted) ∧
  (∀ samples, NanHotEncoder.transform self samples = not_fitted) ∧
  (∀ labels, NanHotEncoder.inverse_from_labels self labels = not_fitted) ∧
  (∀ labels, CatHotEncoder.transform_from_labels self labels = not_fitted) ∧
  (∀ samples, CatHotEncoder.transform self samples = not_fitted) ∧
  (∀ encoded labels, OneHotEncoder.inverse_to_labels encoded = Ok labels →
     OneHotEncoder.inverse self encoded = not_fitted ∧
     NanHotEncoder.inverse self encoded = not_fitted ∧
     CatHotEncoder.inverse self encoded = not_fitted) ∧
  (∀ axes labels,
     NanHotEncoder.transform_from_labels_nd self axes labels
     = if bool_decide (axes = []) then not_fitted else not_1d) ∧
  (∀ axes labels,
     CatHotEncoder.transform_from_labels_nd self axes labels
     = if bool_decide (axes = []) then not_fitted else not_1d).
Proof.
  intros Hnone.
  assert (OneHotEncoder.categories self = not_fitted) as Hcat
    by (unfold OneHotEncoder.categories; by rewrite Hnone).
  assert (OneHotEncoder.n_categories self = not_fitted) as Hn
    by (unfold OneHotEncoder.n_categories; by rewrite Hcat).
  assert (∀ labels, OneHotEncoder.transform_from_labels self labels = not_fitted)
    as Hfrom by (intros; unfold OneHotEncoder.transform_from_labels; by rewrite Hn).
  assert (∀ samples, OneHotEncoder.transform_to_labels self samples = not_fitted)
    as Hto by (intros; unfold OneHotEncoder.transform_to_labels; by rewrite Hcat).
  assert (∀ labels, OneHotEncoder.inverse_from_labels self labels = not_fitted)
    as Hinv by (intros; unfold OneHotEncoder.inverse_from_labels; by rewrite Hcat).
  assert (∀ samples, NanHotEncoder.transform_to_labels self samples = not_fitted)
    as Hnto by (intros; unfold NanHotEncoder.transform_to_labels; by rewrite Hcat).
  assert (∀ labels, NanHotEncoder.transform_from_labels self labels = not_fitted)
    as Hnfrom by (intros; unfold NanHotEncoder.transform_from_labels; by rewrite Hfrom).
  assert (∀ labels, CatHotEncoder.transform_from_labels self labels = not_fitted)
    as Hcfrom by (intros; unfold CatHotEncoder.transform_from_labels; by rewrite Hfrom).
  split_and!; try done.
  - intros. unfold OneHotEncoder.transform. by rewrite Hto.
  - intros. unfold NanHotEncoder.transform. by rewrite Hnto.
  - intros. unfold NanHotEncoder.inverse_from_labels. by rewrite Hinv.
  - intros. unfold CatHotEncoder.transform. by rewrite Hcat.
  - intros encoded labels Hlabels.
    unfold OneHotEncoder.inverse, NanHotEncoder.inverse, CatHotEncoder.inverse,
      NanHotEncoder.inverse_to_labels, CatHotEncoder.inverse_to_labels,
      NanHotEncoder.inverse_from_labels.
    rewrite Hlabels. cbn. by rewrite !Hinv, Hcat.
  - intros axes labels. unfold NanHotEncoder.transform_from_labels_nd.
    destruct axes; [by rewrite bool_decide_false, Hnfrom by by intros []|done].
  - intros axes labels. unfold CatHotEncoder.transform_from_labels_nd.
    destruct axes; [by rewrite bool_decide_false, Hcfrom by by intros []|done].
Qed.

End unfitted.

Lemma fit_keeps_sorted_distinct_values_witness :
  ∃ categories,
    OneHotEncoder.categories
      (OneHotEncoder.fit doctest.str_le OneHotEncoder.__init__ ["b"; "a"; "b"]%string)
    = Ok categories ∧
    NoDup categories ∧ Sorted doctest.str_le categories ∧
    ∀ v, v ∈ categories ↔ v ∈ ["b"; "a"; "b"]%string.
Proof.
  assert (Total doctest.str_le) as Htotal by exact String.leb_total.
  exact (proj1 (fit_keeps_sorted_distinct_values doctest.str_le
                  OneHotEncoder.__init__ ["b"; "a"; "b"]%string []
                  {| pd.cat_categories := []; pd.cat_codes := [] |})).
Defined.

Lemma methods_need_fit_witness :
  OneHotEncoder.transform (V:=string) OneHotEncoder.__init__ ["a"]%string = not_fitted ∧
  NanHotEncoder.transform (V:=string) NanHotEncoder.__init__ [None] = not_fitted ∧
  OneHotEncoder.inverse (V:=string) OneHotEncoder.__init__ (np.Matrix 2 [[0; 1]])
  = not_fitted ∧
  NanHotEncoder.transform_from_labels_nd (V:=string) NanHotEncoder.__init__ [2%nat]
    [Some 0; None; Some 1; Some 0]
  = not_1d.
Proof.
  destruct (methods_need_fit (V:=string) OneHotEncoder.__init__ eq_refl)
    as (_ & _ & Htransform & _ & _ & _ & Hnan & _ & _ & _ & Hinverse & Hnd & _).
  split_and!; [apply Htransform|apply Hnan| |apply (Hnd [2%nat])].
  by apply (Hinverse (np.Matrix 2 [[0; 1]]) [1]).
Defined.

(** ** The topographic error and the neighbourhood radius *)

Section radius.
Import nd measures.
Local Open Scope Z_scope.


Lemma sum_indicator_le {A} (f g : A → bool) (l : list A) :
  (∀ p, f p = true → g p = true) →
  foldr Z.add 0 ((λ p, if f p then 1 else 0) <$> l)
  ≤ foldr Z.add 0 ((λ p, if g p then 1 else 0) <$> l).
Proof.
  intros Hfg. induction l as [|p l IH]; [done|]. rewrite !fmap_cons. cbn [foldr].
  specialize (Hfg p).
  destruct (f p), (g p); first [lia|by specialize (Hfg eq_refl)].
Qed.

Lemma mean_int_le (a b : list Z) :
  length a = length b → foldr Z.add 0 a ≤ foldr Z.add 0 b →
  (mean_int a <= mean_int b)%Q.
Proof.
  intros Hlen Hsum. unfold mean_int. rewrite Hlen.
  destruct (Z.of_nat (length b)) as [|p|p] eqn:Hp; [| |lia].
  - unfold Qdiv, Qinv, Qmult, Qle, inject_Z. cbn. lia.
  - unfold Qdiv, Qinv, Qmult, Qle, inject_Z. cbn. nia.
Qed.


(** X13: a grid of a single unit has no second best matching unit: for
    well-shaped weights and at least one sample [topographic_error] raises
    IndexError when it reads the column of the second one. *)
Theorem topographic_error_needs_two_units (np_argsort : list float → list nat)
    (np_sum : list float → float)
    (weights x : ndarray float) (r : float)
    (map_shape : list nat) (n_data n_features : nat) :
  shape weights = map_shape ++ [1%nat; n_features] →
  shape x = [n_data; n_features] →
  n_data ≠ 0%nat → map_shape ≠ [] → size map_shape = 1%nat →
  topographic_error np_argsort np_sum weights x r = Raise IndexError.
Proof.
  intros Hw Hx Hn Hgrid Hunits.
  unfold topographic_error, broadcast_sub.
  rewrite Hw, Hx, last2_app, but_last2_app. cbn [hd].
  rewrite (bool_decide_true (n_features = n_features)) by done.
  cbn [mbind result_bind].
  rewrite (bool_decide_false (n_data = 0%nat)), (bool_decide_false (map_shape = []))
    by done.
  set (diff := _ <$> blocks n_features (size map_shape) (data weights)).
  assert (length (distances np_sum diff) = size map_shape) as Hlen.
  { unfold distances, diff. by rewrite !length_fmap, blocks_length. }
  destruct n_data as [|n]; [done|]. cbn [seq traverse].
  set (b_ix := _ <$> bmus np_argsort (distances np_sum diff) (S n)).
  assert (length b_ix ≤ S n)%nat as Hb.
  { unfold b_ix, bmus. rewrite length_fmap, Hlen.
    rewrite Hunits. cbn. by rewrite app_nil_r, !length_fmap, length_seq. }
  assert (column b_ix (0 + S n) = Raise IndexError) as ->
    by (unfold column; by rewrite (lookup_ge_None_2 b_ix (0 + S n) Hb)).
  destruct (column b_ix 0) as [c|e] eqn:Hc; [done|].
  unfold column in Hc. destruct (b_ix !! 0%nat); by simplify_eq.
Qed.

End radius.


Lemma topographic_error_needs_two_units_witness :
  measures.topographic_error measures.argsort measures.sum_in_order
    (nd.NDArray [1; 1; 2]%nat [0; 10]%float) (nd.NDArray [1; 2]%nat [3; 4]%float) 1
  = Raise IndexError.
Proof.
  apply (topographic_error_needs_two_units _ _ _ _ _ [1]%nat 1 2);
    [reflexivity|reflexivity|done|done|reflexivity].
Defined.

(** ** The embedding accuracy *)

Section embedding.
Import nd measures.
Local Open Scope Z_scope.

Lemma exceeds_spec (alpha p : Q) : exceeds alpha p = true ↔ (alpha < p)%Q.
Proof.
  unfold exceeds. destruct (Qlt_le_dec alpha p) as [Hlt|Hle]; [done|].
  split; [done|]. intros Hlt. by destruct (Qlt_not_le _ _ Hlt).
Qed.

Global Instance Qlt_dec (a b : Q) : Decision (a < b)%Q.
Proof.
  destruct (Qlt_le_dec a b) as [Hlt|Hle]; [by left|right].
  intros Hlt. exact (Qlt_not_le _ _ Hlt Hle).
Defined.

(** The p-values of the features: [pvals] holds, feature by feature, the
    second component of what [ks_2samp] returns for the column of the
    samples and the column of the reshaped weights. *)
Definition p_values (ks_2samp : list Q → list Q → result (Q * Q))
    (weights : ndarray Q) (x : batch) (pvals : list Q) : Prop :=
  let features := batch_features x in
  let w := blocks features (size (shape weights) / features) (data weights) in
  Forall2 (λ f p, ∃ statistic,
             ks_2samp (feature f (batch_rows x)) (feature f w) = Ok (statistic, p))
    (seq 0 features) pvals.

Lemma embedding_accuracy_value ks_2samp (weights : ndarray Q) (x : batch)
    (alpha : Q) (pvals : list Q) :
  batch_features x ≠ 0%nat →
  (size (shape weights) mod batch_features x)%nat = 0%nat →
  p_values ks_2samp weights x pvals →
  embedding_accuracy ks_2samp weights x alpha
  = Ok (mean_int ((λ p, if exceeds alpha p then 1 else 0) <$> pvals)).
Proof.
  intros Hfeatures Hdiv Hp. unfold embedding_accuracy.
  rewrite (bool_decide_false (batch_features x = 0%nat)) by done.
  rewrite bool_decide_false by by intros [].
  unfold p_values in Hp. cbv zeta in Hp.
  set (call := λ f, _ ≫= _).
  assert (traverse call (seq 0 (batch_features x)) = Ok pvals) as ->; [|done].
  induction Hp as [|f p fs ps (statistic & Hf) _ IH]; [done|].
  cbn. assert (call f = Ok p) as -> by (unfold call; by rewrite Hf).
  cbn. by rewrite IH.
Qed.

(** X15: when [features], the length of the last axis of [x], is not 0 and
    divides the number of weights, and [ks_2samp] returns for every feature,
    [embedding_accuracy] returns the number of features whose p-value
    exceeds [alpha] divided by the number of features.  The result lies in
    [0, 1]; it is 0 exactly when no p-value exceeds [alpha] and 1 exactly
    when all do. *)
Theorem embedding_accuracy_is_fraction ks_2samp (weights : ndarray Q) (x : batch)
    (alpha : Q) (pvals : list Q) :
  batch_features x ≠ 0%nat →
  (size (shape weights) mod batch_features x)%nat = 0%nat →
  p_values ks_2samp weights x pvals →
  let similar := λ p, (alpha < p)%Q in
  let e := (inject_Z (Z.of_nat (length (filter similar pvals)))
            / inject_Z (Z.of_nat (batch_features x)))%Q in
  embedding_accuracy ks_2samp weights x alpha = Ok e ∧
  (0 <= e)%Q ∧ (e <= 1)%Q ∧
  ((e == 0)%Q ↔ Forall (λ p, ¬ similar p) pvals) ∧
  ((e == 1)%Q ↔ Forall similar pvals).
Proof.
  intros Hfeatures Hdiv Hp similar e.
  assert (length pvals = batch_features x) as Hlen.
  { apply Forall2_length in Hp. by rewrite length_seq in Hp. }
  pose proof (length_filter similar pvals) as Hcount.
  destruct (fraction_bounds (length (filter similar pvals)) (batch_features x))
    as (Hlo & Hhi & Hzero & Hone); [done|lia|].
  fold e in Hlo, Hhi, Hzero, Hone.
  split_and!; try done.
  - rewrite (embedding_accuracy_value _ _ _ _ pvals) by done.
    f_equal. unfold mean_int. rewrite (sum_indicator (exceeds alpha)).
    rewrite length_fmap, Hlen. subst e. do 4 f_equal.
    apply list_filter_iff. intros p. apply exceeds_spec.
  - by rewrite Hzero, filter_none.
  - by rewrite Hone, <-Hlen, filter_all.
Qed.

(** X16: under the same conditions the accuracy does not grow with [alpha]:
    a larger [alpha] gives an accuracy no larger. *)
Theorem embedding_accuracy_falls_with_alpha ks_2samp (weights : ndarray Q) (x : batch)
    (alpha alpha' : Q) (pvals : list Q) :
  batch_features x ≠ 0%nat →
  (size (shape weights) mod batch_features x)%nat = 0%nat →
  p_values ks_2samp weights x pvals →
  (alpha <= alpha')%Q →
  ∃ e e',
    embedding_accuracy ks_2samp weights x alpha = Ok e ∧
    embedding_accuracy ks_2samp weights x alpha' = Ok e' ∧
    (e' <= e)%Q.
Proof.
  intros Hfeatures Hdiv Hp Halpha.
  rewrite !(embedding_accuracy_value _ _ _ _ pvals) by done.
  eexists _, _. split_and!; [done..|].
  apply mean_int_le; [by rewrite !length_fmap|].
  apply (sum_indicator_le (exceeds alpha') (exceeds alpha)).
  intros p. rewrite !exceeds_spec. intros Hlt.
  by eapply Qle_lt_trans.
Qed.

End embedding.

Lemma embedding_accuracy_is_fraction_witness :
  let ks_2samp := λ a b : list Q,
    Ok (0%Q, if bool_decide (length a = length b) then 1%Q else 0%Q) in
  ∃ e, measures.embedding_accuracy ks_2samp
         (nd.NDArray [2; 1; 2]%nat [0; 1; 2; 3]%Q)
         (measures.Batch 2 [[0; 1]; [2; 4]; [5; 7]]%Q) (1 # 20) = Ok e ∧
       (0 <= e)%Q ∧ (e <= 1)%Q.
Proof.
  intros ks_2samp.
  destruct (embedding_accuracy_is_fraction ks_2samp
              (nd.NDArray [2; 1; 2]%nat [0; 1; 2; 3]%Q)
              (measures.Batch 2 [[0; 1]; [2; 4]; [5; 7]]%Q) (1 # 20) [0; 0]%Q)
    as (He & Hlo & Hhi & _); [done|reflexivity| |].
  - repeat (constructor; [by exists 0%Q|]). constructor.
  - eexists. split_and!; [exact He|exact Hlo|exact Hhi].
Defined.

Lemma embedding_accuracy_falls_with_alpha_witness :
  let ks_2samp := λ a b : list Q,
    Ok (0%Q, if bool_decide (length a = length b) then 1%Q else 0%Q) in
  ∃ e e',
    measures.embedding_accuracy ks_2samp
      (nd.NDArray [3; 1; 2]%nat [0; 1; 2; 3; 4; 5]%Q)
      (measures.Batch 2 [[0; 1]; [2; 4]; [5; 7]]%Q) (1 # 20) = Ok e ∧
    measures.embedding_accuracy ks_2samp
      (nd.NDArray [3; 1; 2]%nat [0; 1; 2; 3; 4; 5]%Q)
      (measures.Batch 2 [[0; 1]; [2; 4]; [5; 7]]%Q) (1 # 10) = Ok e' ∧
    (e' <= e)%Q.
Proof.
  intros ks_2samp.
  destruct (embedding_accuracy_falls_with_alpha ks_2samp
              (nd.NDArray [3; 1; 2]%nat [0; 1; 2; 3; 4; 5]%Q)
              (measures.Batch 2 [[0; 1]; [2; 4]; [5; 7]]%Q) (1 # 20) (1 # 10)
              [1; 1]%Q)
    as (e & e' & He & He' & Hle); [done|reflexivity| |by vm_compute|].
  - repeat (constructor; [by exists 0%Q|]). constructor.
  - exists e, e'. split_and!; [exact He|exact He'|exact Hle].
Defined.

(** ** The round trip of the masked encoders on any samples *)

Section filled.
Context {V : Type} `{EqDecision V}.
Implicit Types (self : OneHotEncoder.t V) (categories : list V).

Lemma NanHot_transform_spec self categories (samples : list (option V)) :
  OneHotEncoder._categories self = Some categories →
  NanHotEncoder.transform self samples
  = Ok {| pd.values := np.Matrix (length categories)
            (row_of (length categories) <$> (position categories <$> samples));
          pd.columns := categories |}.
Proof.
  intros Hfit. unfold NanHotEncoder.transform.
  rewrite (NanHot_transform_to_labels_spec _ categories) by done. cbn.
  replace ((λ o, Z.of_nat <$> position categories o) <$> samples)
    with (fmap (M:=option) Z.of_nat <$> (position categories <$> samples))
    by by rewrite <-list_fmap_compose.
  apply NanHot_transform_from_labels_spec; [done|].
  apply Forall_fmap, Forall_forall. intros o _ k Hk. cbn in Hk.
  by eapply position_bound.
Qed.

Lemma argmax_masked_rows (n : nat) (ks : list (option nat)) :
  n ≠ 0%nat → Forall (λ k, ∀ i, k = Some i → (i < n)%nat) ks →
  np.argmax (np.Matrix n (row_of n <$> ks)) = Ok (Z.of_nat <$> (default 0%nat <$> ks)).
Proof.
  intros Hn Hks. unfold np.argmax. cbn. rewrite bool_decide_false by done.
  f_equal. rewrite <-!list_fmap_compose. apply Forall_fmap_ext_1.
  eapply Forall_impl; [exact Hks|]. intros [k|] Hk; cbn.
  - by rewrite argmax_eye_row by by apply Hk.
  - rewrite argmax_row_zeros; [done|]. by apply Forall_replicate.
Qed.

(** What an entry comes back as: itself when it is a value of the category
    set, the first category otherwise. *)
Definition filled categories (first : V) (o : option V) : V :=
  match o with
  | Some v => if bool_decide (v ∈ categories) then v else first
  | None => first
  end.

Lemma filled_lookup (first : V) (rest : list V) (o : option V) :
  NoDup (first :: rest) →
  (first :: rest) !! default 0%nat (position (first :: rest) o)
  = Some (filled (first :: rest) first o).
Proof.
  intros Hnd. destruct o as [v|]; [|done]. cbn [position filled].
  case_bool_decide as Hv; [|done].
  apply list_elem_of_lookup in Hv as [k Hk].
  by rewrite (label_of_unique _ _ k), Nat2Z.id.
Qed.

(** X17: [NanHotEncoder.inverse] after [transform] returns for any samples
    on an encoder fitted with distinct categories, and no entry comes back
    missing: a value of the category set comes back unchanged, a missing
    entry and a value outside the set come back as the first category. *)
Theorem NanHot_round_trip_fills_first self (first : V) (rest : list V)
    (samples : list (option V)) :
  OneHotEncoder.categories self = Ok (first :: rest) → NoDup (first :: rest) →
  NanHotEncoder.transform self samples
    ≫= (λ df, NanHotEncoder.inverse self (pd.values df))
  = Ok ((λ o, Some (filled (first :: rest) first o)) <$> samples).
Proof.
  intros Hfit%categories_fitted Hnd.
  rewrite (NanHot_transform_spec _ (first :: rest)) by done. cbn [mbind result_bind].
  set (categories := first :: rest) in *.
  assert (Forall (λ k, ∀ i, k = Some i → (i < length categories)%nat)
            (position categories <$> samples)) as Hks.
  { apply Forall_fmap, Forall_forall. intros o _ k Hk. cbn in Hk.
    by eapply position_bound. }
  unfold NanHotEncoder.inverse, NanHotEncoder.inverse_to_labels,
    OneHotEncoder.inverse_to_labels. cbn [pd.values].
  rewrite argmax_masked_rows by done. cbn [mbind result_bind].
  replace (Some <$> (Z.of_nat <$> (default 0%nat <$> (position categories <$> samples))))
    with (fmap (M:=option) Z.of_nat
            <$> (Some ∘ default 0%nat ∘ position categories <$> samples))
    by by rewrite <-!list_fmap_compose.
  rewrite (NanHot_inverse_from_labels_spec _ categories); [|done|].
  2:{ apply Forall_fmap, Forall_forall. intros o _ i [= <-].
      unfold compose.
      destruct (position categories o) as [k|] eqn:Hk;
        [exact (position_bound _ _ _ Hk)|].
      subst categories. cbn. lia. }
  f_equal. rewrite <-list_fmap_compose. apply list_fmap_ext.
  intros _ o _. cbn. by apply filled_lookup.
Qed.

(** X18: [CatHotEncoder.inverse] after [transform] returns for any
    categorical series on an encoder fitted with distinct categories: the
    series that comes back has the categories of the encoder and no missing
    entry, a missing entry and a value outside the categories having become
    the first category. *)
Theorem CatHot_round_trip_fills_first self (first : V) (rest : list V)
    (series : pd.Categorical V) :
  OneHotEncoder.categories self = Ok (first :: rest) → NoDup (first :: rest) →
  ∃ back,
    CatHotEncoder.transform self series
      ≫= (λ df, CatHotEncoder.inverse self (pd.values df)) = Ok back ∧
    pd.cat_categories back = first :: rest ∧
    pd.cat_values back
    = (λ o, Some (filled (first :: rest) first o)) <$> pd.cat_values series.
Proof.
  intros Hfit Hnd. pose proof (categories_fitted _ _ Hfit) as Hfitted.
  rewrite (CatHot_transform_spec _ (first :: rest)) by done. cbn [mbind result_bind].
  set (categories := first :: rest) in *.
  generalize (pd.cat_values series). intros entries.
  set (ks := position categories <$> entries).
  assert (Forall (λ k, ∀ i, k = Some i → (i < length categories)%nat) ks) as Hks.
  { apply Forall_fmap, Forall_forall. intros o _ k Hk. cbn in Hk.
    by eapply position_bound. }
  unfold CatHotEncoder.inverse, CatHotEncoder.inverse_to_labels,
    OneHotEncoder.inverse_to_labels. cbn [pd.values].
  rewrite argmax_masked_rows by done. cbn [mbind result_bind].
  rewrite Hfit. cbn [mbind result_bind]. unfold pd.from_codes.
  rewrite bool_decide_true by done.
  rewrite bool_decide_true.
  2:{ apply Forall_fmap, Forall_fmap. eapply Forall_impl; [exact Hks|].
      intros [k|] Hk; cbn.
      - specialize (Hk k eq_refl). subst categories. cbn in Hk. lia.
      - lia. }
  eexists. split_and!; [done..|].
  unfold pd.cat_values. cbn [pd.cat_codes pd.cat_categories]. subst ks.
  rewrite <-!list_fmap_compose. apply list_fmap_ext. intros _ o _.
  unfold compose, pd.cat_value.
  rewrite bool_decide_false by lia. rewrite Nat2Z.id.
  by apply filled_lookup.
Qed.

End filled.

Lemma NanHot_round_trip_fills_first_witness :
  NanHotEncoder.transform doctest.nh [None; Some "c"; Some "z"]%string
    ≫= (λ df, NanHotEncoder.inverse doctest.nh (pd.values df))
  = Ok [Some "a"; Some "c"; Some "a"]%string.
Proof.
  pose proof (NanHot_round_trip_fills_first doctest.nh "a"%string
                ["b"; "c"; "d"]%string [None; Some "c"; Some "z"]%string) as Hround.
  assert (NoDup ["a"; "b"; "c"; "d"]%string) as Hnd
    by by apply (bool_decide_unpack _).
  exact (Hround eq_refl Hnd).
Defined.

Lemma CatHot_round_trip_fills_first_witness :
  ∃ back,
    CatHotEncoder.transform doctest.ch doctest.s
      ≫= (λ df, CatHotEncoder.inverse doctest.ch (pd.values df)) = Ok back ∧
    pd.cat_values back
    = [Some "a"; Some "c"; Some "d"; Some "a"; Some "b"; Some "c"; Some "c"]%string.
Proof.
  assert (NoDup ["a"; "b"; "c"; "d"]%string) as Hnd
    by by apply (bool_decide_unpack _).
  destruct (CatHot_round_trip_fills_first doctest.ch "a"%string
              ["b"; "c"; "d"]%string doctest.s eq_refl Hnd)
    as (back & Hback & _ & Hvalues).
  exists back. split; [exact Hback|exact Hvalues].
Defined.
